(** * Event-sample extraction of [summarize_pitching_db.py]

    A shallow embedding of the three helper functions [time_to_frame],
    [get_value_at_frame] and [get_max_value] and of [summarize_database],
    with the properties stated about them.  The body of the loop over the
    rows is given twice: as a function of the cells of the row, and as a
    program on a store of objects, which the first is proved to describe.

    Number model.  A timestamp or sample cell read from the table is either
    missing ([None] or NaN, which [pd.isna] does not tell apart) or a finite
    double, given as the rational it denotes ([Q]).  Comparisons, [abs] and
    negation are exact on doubles.  The arithmetic of the interpolation
    formula is float arithmetic: every operation is the exact one followed
    by rounding to the nearest double, ties to even, with overflow to an
    infinity and NaN where IEEE 754 has it; the two zeros are not told
    apart.  [round] is Python's round-half-to-even and raises on NaN and on
    an infinity.  The [frames] cell of a row is kept as it is read; the
    frame count the loop works with is what lines 194-198 make of it: a
    Python [int] ([Z]), [None], or the float NaN when the cell is NULL in a
    numeric column. *)

From Stdlib Require Import ZArith QArith Qabs Qround Qpower Qreduction Qcanon.
From Stdlib Require Import Lia.
From stdpp Require Import base option list gmap strings.

Open Scope Z_scope.

(** ** Python values and exceptions *)

(** A float cell: [None] when [pd.isna] holds of it. *)
Abbreviation cell := (option Q).

(** The value bound to [frames] once lines 194-198 have run, unless it is
    [None]: the float NaN, or an [int]. *)
Inductive fnum : Type :=
  | NaN
  | Int (n : Z).

Inductive exn : Type :=
  | ZeroDivisionError
  | ValueError
  | TypeError
  | KeyError
  | IndexError
  | OverflowError
  | AttributeError.

Inductive result (A : Type) : Type :=
  | Ok (a : A)
  | Raise (e : exn).
Arguments Ok {A} a.
Arguments Raise {A} e.

#[global] Instance result_ret : MRet result := fun _ a => Ok a.
#[global] Instance result_bind : MBind result := fun _ _ f m =>
  match m with
  | Ok a => f a
  | Raise e => Raise e
  end.

Definition raises {A} (m : result A) : Prop := ∃ e, m = Raise e.

(** ** Comparison of finite floats *)

Definition Qltb (x y : Q) : bool :=
  match (x ?= y)%Q with Lt => true | _ => false end.

Definition Qeqb (x y : Q) : bool :=
  match (x ?= y)%Q with Eq => true | _ => false end.

(** ** Float arithmetic *)

(** A Python float: a finite number, an infinity or NaN. *)
Inductive pyfloat : Type :=
  | Fin (q : Q)
  | Inf (negative : bool)
  | FNaN.

(** The nearest integer, ties to the even one. *)
Definition round_half_even (x : Q) : Z :=
  let f := Qfloor x in
  match (x - inject_Z f ?= 1 # 2)%Q with
  | Lt => f
  | Gt => f + 1
  | Eq => if Z.even f then f else f + 1
  end.

Definition pow2 (e : Z) : Q := (2 ^ e)%Q.

(** For [x > 0], the [e] with [2^e <= x < 2^(e+1)]. *)
Definition binade (x : Q) : Z :=
  let e0 := Z.log2 (Qnum x) - Z.log2 (Zpos (Qden x)) in
  if Qle_bool (pow2 e0) x then e0 else e0 - 1.

(** The spacing of the doubles around [x > 0]: 53 significant bits, the
    least exponent -1022 (below it the spacing stays [2^-1074]). *)
Definition ulp_of (x : Q) : Q := pow2 (Z.max (binade x) (-1022) - 52).

(** [x > 0] brought onto that spacing, ties to even. *)
Definition rounded (x : Q) : Q :=
  (inject_Z (round_half_even (x / ulp_of x)) * ulp_of x)%Q.

(** Rounding of [x > 0] to the nearest double, an infinity from [2^1024]
    on. *)
Definition rnd_pos (x : Q) : pyfloat :=
  let r := rounded x in
  if Qle_bool (pow2 1024) r then Inf false else Fin (Qred r).

Definition fneg (x : pyfloat) : pyfloat :=
  match x with
  | Fin q => Fin (- q)
  | Inf s => Inf (negb s)
  | FNaN => FNaN
  end.

(** Rounding of a rational to the nearest double. *)
Definition rnd (x : Q) : pyfloat :=
  match Qnum (Qred x) with
  | Z0 => Fin 0
  | Zpos _ => rnd_pos (Qred x)
  | Zneg _ => fneg (rnd_pos (- Qred x))
  end.

(** [x + y], [x - y], [x * y] on floats. *)
Definition fadd (x y : pyfloat) : pyfloat :=
  match x, y with
  | FNaN, _ | _, FNaN => FNaN
  | Fin a, Fin b => rnd (a + b)
  | Inf s, Fin _ | Fin _, Inf s => Inf s
  | Inf s, Inf s' => if Bool.eqb s s' then Inf s else FNaN
  end.

Definition fsub (x y : pyfloat) : pyfloat := fadd x (fneg y).

Definition fmul (x y : pyfloat) : pyfloat :=
  match x, y with
  | FNaN, _ | _, FNaN => FNaN
  | Fin a, Fin b => rnd (a * b)
  | Inf s, Fin b | Fin b, Inf s =>
      if Qeqb b 0 then FNaN else Inf (xorb s (Qltb b 0))
  | Inf s, Inf s' => Inf (xorb s s')
  end.

(** [x / y] for [y] other than zero. *)
Definition fdiv (x y : pyfloat) : pyfloat :=
  match x, y with
  | FNaN, _ | _, FNaN => FNaN
  | Fin a, Fin b => rnd (a / b)
  | Fin _, Inf _ => Fin 0
  | Inf s, Fin b => Inf (xorb s (Qltb b 0))
  | Inf _, Inf _ => FNaN
  end.

Definition is_zero (x : pyfloat) : bool :=
  match x with
  | Fin q => Qeqb q 0
  | _ => false
  end.

(** [x / y] on Python floats.  In [time_to_frame] the guard
    [time_end == time_start] stands before the division. *)
Definition py_div (x y : pyfloat) : result pyfloat :=
  if is_zero y then Raise ZeroDivisionError else Ok (fdiv x y).

(** [round(x)] with one argument. *)
Definition py_round (x : pyfloat) : result Z :=
  match x with
  | Fin q => Ok (round_half_even q)
  | Inf _ => Raise OverflowError
  | FNaN => Raise ValueError
  end.

(** The conversion of an [int] operand of a float operation. *)
Definition float_of_int (k : Z) : result pyfloat :=
  match rnd (inject_Z k) with
  | Inf _ => Raise OverflowError
  | x => Ok x
  end.

(** ** Frame counts *)

(** [frames <= 1]; every comparison with NaN is false. *)
Definition fnum_le (frames : fnum) (k : Z) : bool :=
  match frames with
  | NaN => false
  | Int n => n <=? k
  end.

Definition fnum_lt (frames : fnum) (k : Z) : bool :=
  match frames with
  | NaN => false
  | Int n => n <? k
  end.

(** [frames - 1] as the operand of a float multiplication. *)
Definition frames_minus_1 (frames : fnum) : result pyfloat :=
  match frames with
  | NaN => Ok FNaN
  | Int n => float_of_int (n - 1)
  end.

(** [max(1, min(frame, frames))]; [min] and [max] keep their first
    argument unless the second compares below, resp. above, it. *)
Definition clamp_frame (frame : Z) (frames : fnum) : Z :=
  match frames with
  | NaN => Z.max 1 frame
  | Int n => Z.max 1 (Z.min frame n)
  end.

(** ** [time_to_frame] *)

(** The function with its float division as a parameter, so that a path
    that does not reach the division is one whose result does not depend
    on it. *)
Definition time_to_frame_with (div : pyfloat → pyfloat → result pyfloat)
    (event_time time_start time_end : cell) (frames : fnum)
    : result (option fnum) :=
  match event_time, time_start, time_end with
  | Some t, Some ts, Some te =>
      if fnum_le frames 1 then Ok None
      else if Qltb t ts then Ok (Some (Int 1))
      else if Qltb te t then Ok (Some frames)
      else if Qeqb te ts then Ok (Some (Int 1))
      else
        ratio ← div (fsub (Fin t) (Fin ts)) (fsub (Fin te) (Fin ts));
        scale ← frames_minus_1 frames;
        let frame_float := fadd (Fin 1) (fmul ratio scale) in
        frame ← py_round frame_float;
        Ok (Some (Int (clamp_frame frame frames)))
  | _, _, _ => Ok None
  end.

Definition time_to_frame : cell → cell → cell → fnum → result (option fnum) :=
  time_to_frame_with py_div.

(** ** Rows *)

(** The [frames] cell of a row, as [row.get('frames')] returns it: [None]
    (also when the table has no such column), an integer, a float, which
    can be NaN or an infinity, or a text, given with the integer that [int]
    reads from it when it reads one. *)
Inductive frames_cell : Type :=
  | CellNone
  | CellInt (n : Z)
  | CellFloat (x : pyfloat)
  | CellText (parsed : option Z).

(** [int(frames)]: a finite float is truncated toward zero. *)
Definition py_int (c : frames_cell) : result Z :=
  match c with
  | CellNone => Raise TypeError
  | CellInt n => Ok n
  | CellFloat (Fin q) => Ok (Z.quot (Qnum q) (Zpos (Qden q)))
  | CellFloat (Inf _) => Raise OverflowError
  | CellFloat FNaN => Raise ValueError
  | CellText (Some n) => Ok n
  | CellText None => Raise ValueError
  end.

(** [pd.notna(frames)]. *)
Definition notna_frames (c : frames_cell) : bool :=
  match c with
  | CellNone | CellFloat FNaN => false
  | _ => true
  end.

(** Lines 194-198: the value bound to [frames] from then on.  A cell that
    [pd.notna] rejects is left as it is; on the others [int] is applied,
    and the handler turns its [ValueError] and its [TypeError] into [None],
    but not its [OverflowError]. *)
Definition convert_frames (c : frames_cell) : result (option fnum) :=
  if notna_frames c then
    match py_int c with
    | Ok n => Ok (Some (Int n))
    | Raise ValueError | Raise TypeError => Ok None
    | Raise e => Raise e
    end
  else
    match c with
    | CellFloat FNaN => Ok (Some NaN)
    | _ => Ok None
    end.

(** One row of the wide table, as the loop of [summarize_database] reads it:
    [row.get('time_start')], [row.get('time_end')], [row.get('frames')],
    the event-time columns by column name, and the sample columns, column
    [value_i] at key [i].  A key is in a map exactly when the column is in
    [row.index]; a column that is present can still hold a missing cell. *)
Record Row : Type := mkRow {
  row_time_start : cell;
  row_time_end : cell;
  row_frames : frames_cell;
  row_times : gmap string cell;
  row_values : gmap Z cell
}.

(** [value_col in row.index] for [value_col = f"value_{i}"]. *)
Definition in_index (row : Row) (i : Z) : bool :=
  bool_decide (is_Some (row_values row !! i)).

(** [row[value_col]]. *)
Definition row_getitem (row : Row) (i : Z) : result cell :=
  match row_values row !! i with
  | Some c => Ok c
  | None => Raise KeyError
  end.

(** [row.get(col)]: the cell, [None] when the column does not exist. *)
Definition row_get (row : Row) (col : string) : cell :=
  default None (row_times row !! col).

(** The sample columns [value_1 .. value_k] holding the given cells. *)
Definition value_columns (samples : list cell) : gmap Z cell :=
  list_to_map (zip (seqZ 1 (Z.of_nat (length samples))) samples).

(** ** [get_value_at_frame] *)

Definition get_value_at_frame (row : Row) (frame_num : option fnum)
    : result (option Q) :=
  match frame_num with
  | None => Ok None
  | Some f =>
      if fnum_lt f 1 then Ok None
      else
        match f with
        | NaN => Ok None (* no column is named [value_nan] *)
        | Int i =>
            if in_index row i then
              val ← row_getitem row i;
              match val with
              | Some v => Ok (Some v)
              | None => Ok None
              end
            else Ok None
        end
  end.

(** ** [get_max_value] *)

(** A [for] loop whose body threads one variable and may raise. *)
Fixpoint for_loop {S B : Type} (body : S → B → result S) (s : S)
    (items : list B) : result S :=
  match items with
  | [] => Ok s
  | b :: items' => s' ← body s b; for_loop body s' items'
  end.

(** [range(a, b)]. *)
Definition py_range (a b : Z) : list Z := seqZ a (b - a).

(** [max(l)]: the first of the largest elements; the running maximum [m]
    gives way to [y] only when [y > m]. *)
Definition larger (m y : Q) : Q := if Qltb m y then y else m.

Definition py_max (l : list Q) : result Q :=
  match l with
  | [] => Raise ValueError
  | x :: l' => Ok (foldl larger x l')
  end.

(** [l.index(x)]: the position of the first element equal to [x]. *)
Fixpoint py_index (l : list Q) (x : Q) : result nat :=
  match l with
  | [] => Raise ValueError
  | y :: l' => if Qeqb y x then Ok 0%nat else i ← py_index l' x; Ok (S i)
  end.

(** [l[i]] for [i >= 0]. *)
Definition py_getitem (l : list Q) (i : nat) : result Q :=
  match l !! i with
  | Some v => Ok v
  | None => Raise IndexError
  end.

(** The body of the loop over [range(1, frames + 1)]. *)
Definition collect_value (row : Row) (values : list Q) (i : Z)
    : result (list Q) :=
  if in_index row i then
    val ← row_getitem row i;
    match val with
    | Some v => Ok (values ++ [v])
    | None => Ok values
    end
  else Ok values.

Definition get_max_value (row : Row) (frames : option fnum)
    : result (option Q) :=
  match frames with
  | None => Ok None
  | Some f =>
      if fnum_lt f 1 then Ok None
      else
        match f with
        | NaN => Raise TypeError (* [range] of a float *)
        | Int n =>
            values ← for_loop (collect_value row) [] (py_range 1 (n + 1));
            match values with
            | [] => Ok None
            | _ =>
                let abs_values := Qabs <$> values in
                m ← py_max abs_values;
                max_abs_idx ← py_index abs_values m;
                v ← py_getitem values max_abs_idx;
                Ok (Some v)
            end
        end
  end.

(** ** The per-row body of the loop in [summarize_database] *)

(** [event_time_cols]: event name and the column holding its timestamp. *)
Definition event_time_cols : list (string * string) :=
  [("footstrike", "event_footstrike_time");
   ("max_shoulder_rot", "event_max_shoulder_rot_time");
   ("release", "event_release_time");
   ("max_ir", "max_ir_time")]%string.

(** Truth value of [frames] in a condition: [None] and [0] are false, NaN
    and every other integer are true. *)
Definition truthy (frames : option fnum) : bool :=
  match frames with
  | None => false
  | Some NaN => true
  | Some (Int n) => negb (n =? 0)
  end.

Definition notna (c : cell) : bool :=
  match c with
  | Some _ => true
  | None => false
  end.

(** The output columns added to a row: [f"@{event_name}"] per event and
    ["@max"]; a key bound to [None] is an undefined field. *)
Abbreviation new_row_t := (gmap string (option Q)).

Definition at_name (event_name : string) : string :=
  ("@" +:+ event_name)%string.

(** One iteration of the loop over [available_events.items()], [frames]
    being the converted frame count; where the condition holds [frames] is
    truthy, hence not [None]. *)
Definition extract_event (row : Row) (frames : option fnum)
    (new_row : new_row_t) (ev : string * string) : result new_row_t :=
  let event_name := ev.1 in
  let event_col := ev.2 in
  let event_time := row_get row event_col in
  if notna event_time && notna (row_time_start row)
     && notna (row_time_end row) && truthy frames then
    match frames with
    | Some f =>
        frame_num ← time_to_frame event_time (row_time_start row)
                      (row_time_end row) f;
        value ← get_value_at_frame row frame_num;
        Ok (<[at_name event_name := value]> new_row)
    | None => Ok (<[at_name event_name := None]> new_row)
    end
  else Ok (<[at_name event_name := None]> new_row).

(** Lines 188-219: the conversion of the frame count, the event values,
    then the extreme; the metadata columns copied into [new_row] beforehand
    play no part and are left out. *)
Definition extract_event_samples (row : Row)
    (available_events : list (string * string)) : result new_row_t :=
  frames ← convert_frames (row_frames row);
  new_row ← for_loop (extract_event row frames) ∅ available_events;
  max_value ← (if truthy frames then get_max_value row frames else Ok None);
  Ok (<["@max"%string := max_value]> new_row).

(** The loop over [df.iterrows()], threading [summarized_rows]. *)
Definition summarize_step (available_events : list (string * string))
    (summarized_rows : list new_row_t) (row : Row)
    : result (list new_row_t) :=
  new_row ← extract_event_samples row available_events;
  Ok (summarized_rows ++ [new_row]).

Definition summarize_rows (available_events : list (string * string))
    (summarized_rows : list new_row_t) (df : list Row)
    : result (list new_row_t) :=
  for_loop (summarize_step available_events) summarized_rows df.

(** ** The loop body on a store of objects *)

(** The objects the loop body works on are held in a store and reached
    through references: a row of [df], an output row, a list of output
    rows.  A write goes to the object a reference points to, and every read
    of [row] goes back to the store, so that a write that reached the row,
    or an output row that shared it, would show in what is read next. *)
Abbreviation loc := positive.

Inductive obj : Type :=
  | ObjRow (row : Row)
  | ObjSeries (new_row : new_row_t)
  | ObjList (items : list loc).

Abbreviation store := (gmap loc obj).

(** A read through [row]. *)
Definition load_row (h : store) (row : loc) : result Row :=
  match h !! row with
  | Some (ObjRow r) => Ok r
  | _ => Raise AttributeError
  end.

(** [new_row[key] = value]. *)
Definition setitem (h : store) (new_row : loc) (key : string)
    (value : option Q) : result store :=
  match h !! new_row with
  | Some (ObjSeries s) => Ok (<[new_row := ObjSeries (<[key := value]> s)]> h)
  | _ => Raise TypeError
  end.

(** [summarized_rows.append(new_row)]. *)
Definition append (h : store) (summarized_rows new_row : loc)
    : result store :=
  match h !! summarized_rows with
  | Some (ObjList items) =>
      Ok (<[summarized_rows := ObjList (items ++ [new_row])]> h)
  | _ => Raise AttributeError
  end.

(** Lines 201-212 on the store: [time_start], [time_end] and [frames] are
    the values read before the loop, [event_time] is read from the row, and
    [get_value_at_frame] is handed the row itself. *)
Definition store_extract_event (row new_row : loc)
    (time_start time_end : cell) (frames : option fnum)
    (h : store) (ev : string * string) : result store :=
  let event_name := ev.1 in
  let event_col := ev.2 in
  r ← load_row h row;
  let event_time := row_get r event_col in
  if notna event_time && notna time_start && notna time_end
     && truthy frames then
    match frames with
    | Some f =>
        frame_num ← time_to_frame event_time time_start time_end f;
        r ← load_row h row;
        value ← get_value_at_frame r frame_num;
        setitem h new_row (at_name event_name) value
    | None => setitem h new_row (at_name event_name) None
    end
  else setitem h new_row (at_name event_name) None.

(** Lines 186-221 on the store.  [row[keep_columns].copy()] is a new
    object; as in [extract_event_samples] the metadata columns it starts
    with are left out. *)
Definition loop_body (available_events : list (string * string))
    (row summarized_rows : loc) (h : store) : result store :=
  let new_row := fresh (dom h) in
  _ ← load_row h row;
  let h := <[new_row := ObjSeries ∅]> h in
  r ← load_row h row;
  let time_start := row_time_start r in
  let time_end := row_time_end r in
  frames ← convert_frames (row_frames r);
  h ← for_loop (store_extract_event row new_row time_start time_end frames)
        h available_events;
  max_value ← (if truthy frames
               then r ← load_row h row; get_max_value r frames
               else Ok None);
  h ← setitem h new_row "@max"%string max_value;
  append h summarized_rows new_row.

(** The output columns when every event comes out undefined. *)
Definition undefined_events (new_row : new_row_t)
    (available_events : list (string * string)) : new_row_t :=
  foldl (λ m ev, <[at_name ev.1 := None]> m) new_row available_events.

(** ** Sample rows *)

Definition footstrike : list (string * string) :=
  [("footstrike", "event_footstrike_time")]%string.

(** A row with window [ts, te], a declared frame count, a footstrike at
    [t] and the given sample columns. *)
Definition footstrike_row (ts te : Q) (frames : Z) (t : Q)
    (samples : list cell) : Row :=
  mkRow (Some ts) (Some te) (CellInt frames)
        {["event_footstrike_time"%string := Some t]}
        (value_columns samples).

(** Samples [10, 20, 30] over the window [0, 1], footstrike at [t]. *)
Definition row_10_20_30 (t : Q) : Row :=
  footstrike_row 0 1 3 t [Some 10%Q; Some 20%Q; Some 30%Q].

(** A row with only sample columns, [frames] declared separately. *)
Definition samples_row (frames : Z) (samples : list cell) : Row :=
  mkRow None None (CellInt frames) ∅ (value_columns samples).

(** Five frames declared, three samples supplied, footstrike at the end of
    the window. *)
Definition short_row : Row :=
  footstrike_row 0 1 5 1 [Some 10%Q; Some 20%Q; Some 30%Q].

(** No frame declared, three samples supplied. *)
Definition zero_row : Row :=
  footstrike_row 0 1 0 1 [Some 10%Q; Some 20%Q; Some 30%Q].

(** The degenerate window [5, 5] with a footstrike at [5]. *)
Definition degenerate_row : Row :=
  footstrike_row 5 5 3 5 [Some 10%Q; Some 20%Q; Some 30%Q].

(** Three frames declared, no sample supplied, and a window from [-2^1023]
    to [2^1023], whose width is not a finite double; footstrike at the end
    of the window. *)
Definition wide_row : Row :=
  footstrike_row (- inject_Z (2 ^ 1023)) (inject_Z (2 ^ 1023)) 3
    (inject_Z (2 ^ 1023)) [].

(** A store holding one row and an empty list of output rows. *)
Definition sample_store : store :=
  {[1%positive := ObjRow (row_10_20_30 (-1)%Q); 2%positive := ObjList []]}.

(** ** Samples of a row *)

(** The sample at frame [i]: the cell of column [value_i] when the column
    exists and the cell is not missing. *)
Definition sample (row : Row) (i : Z) : cell :=
  default None (row_values row !! i).

(** The samples present at the given frames, in the order of the frames. *)
Definition present_samples (row : Row) (frames : list Z) : list Q :=
  omap (sample row) frames.

(** ** The value of one event *)

(** Lines 202-212: the value computed for one event, before it is stored
    under [f"@{event_name}"]. *)
Definition event_value (row : Row) (frames : option fnum)
    (ev : string * string) : result (option Q) :=
  let event_time := row_get row ev.2 in
  if notna event_time && notna (row_time_start row)
     && notna (row_time_end row) && truthy frames then
    match frames with
    | Some f =>
        frame_num ← time_to_frame event_time (row_time_start row)
                      (row_time_end row) f;
        get_value_at_frame row frame_num
    | None => Ok None
    end
  else Ok None.

(** The event gets past every guard of [time_to_frame]: its timestamp and
    the bounds of the window are present, the frame count is an integer
    above one, and the event lies inside a window that is not degenerate.
    Only then is the interpolation formula evaluated. *)
Definition reaches_interpolation (row : Row) (frames : option fnum)
    (ev : string * string) : Prop :=
  ∃ t ts te n,
    row_get row ev.2 = Some t ∧ row_time_start row = Some ts
    ∧ row_time_end row = Some te ∧ frames = Some (Int n)
    ∧ 1 < n ∧ (ts <= t)%Q ∧ (t <= te)%Q ∧ ¬ (te == ts)%Q.

(** The window of the row, when it has one with [time_start < time_end],
    has a float width that is finite and not zero.  The width of two
    distinct doubles is never zero, and it is finite unless the
    subtraction overflows. *)
Definition finite_window (row : Row) : bool :=
  match row_time_start row, row_time_end row with
  | Some ts, Some te =>
      if Qltb ts te then
        match fsub (Fin te) (Fin ts) with
        | Fin d => negb (Qeqb d 0)
        | _ => false
        end
      else true
  | _, _ => true
  end.

(** ** Negated rows *)

(** The row with every sample negated. *)
Definition negate_row (row : Row) : Row :=
  mkRow (row_time_start row) (row_time_end row) (row_frames row)
        (row_times row) (fmap (M := option) Qopp <$> row_values row).

(** ** The columns kept and the events available *)

(** [metadata_cols]. *)
Definition metadata_cols : list string :=
  ["time_start"; "time_end"; "frames"]%string.

(** Lines 129-133: the position of the first column named [value_1]. *)
Definition value_1_idx (all_columns : list string) : option nat :=
  fst <$> list_find (λ col, col = "value_1"%string) all_columns.

(** The body of the loop over [metadata_cols]. *)
Definition add_metadata (all_columns keep_columns : list string)
    (col : string) : list string :=
  if bool_decide (col ∈ all_columns) && negb (bool_decide (col ∈ keep_columns))
  then keep_columns ++ [col]
  else keep_columns.

(** Lines 142-148: the columns before [value_1], then the metadata columns
    found elsewhere. *)
Definition keep_columns (all_columns : list string) (idx : nat)
    : list string :=
  foldl (add_metadata all_columns) (take idx all_columns) metadata_cols.

(** Lines 162-167: the entries of [event_time_cols] whose column exists, in
    the order of [event_time_cols]. *)
Definition available_events_of (columns : list string)
    : list (string * string) :=
  foldl (λ available ev,
           if bool_decide (ev.2 ∈ columns) then available ++ [ev]
           else available)
        [] event_time_cols.

(** ** The table summarized *)

(** [c.lower()] on an ASCII character. *)
Definition lower_char (c : Ascii.ascii) : Ascii.ascii :=
  let n := Ascii.nat_of_ascii c in
  if ((65 <=? n) && (n <=? 90))%nat then Ascii.ascii_of_nat (n + 32) else c.

(** [s.lower()] on an ASCII string. *)
Fixpoint lower (s : string) : string :=
  match s with
  | EmptyString => EmptyString
  | String c s' => String (lower_char c) (lower s')
  end.

(** ['pitch' in table_name.lower()]. *)
Definition is_pitch_table (table_name : string) : bool :=
  match String.index 0 "pitch" (lower table_name) with
  | Some _ => true
  | None => false
  end.

(** Lines 100-112: the first table whose name contains [pitch], whatever
    the case, else the first table; [None] when there is no table. *)
Definition main_table (tables : list string) : option string :=
  match tables with
  | [] => None
  | first :: _ =>
      match list_find (λ table_name, is_pitch_table table_name = true) tables with
      | Some (_, table_name) => Some table_name
      | None => Some first
      end
  end.

(** ** The whole summary *)

(** The table read by [pd.read_sql_query]: its column names and its rows. *)
Record DataFrame : Type := mkDataFrame {
  df_columns : list string;
  df_rows : list Row
}.

(** What a successful run writes: the table name, the metadata columns
    kept, the events extracted and one output per row. *)
Record Summary : Type := mkSummary {
  sum_table : string;
  sum_keep : list string;
  sum_events : list (string * string);
  sum_rows : list new_row_t
}.

(** [summarize_database], its reads given as arguments: whether the input
    file exists, the table names, and the table read for a name.  [None]
    stands for the result [False], with which nothing is written: every
    [return False] of the source and the handler of [except Exception].
    Failures of the connection and of the writes are not modelled. *)
Definition summarize_database (input_exists : bool) (tables : list string)
    (read_table : string → DataFrame) : option Summary :=
  if negb input_exists then None
  else
    match main_table tables with
    | None => None
    | Some main =>
        let df := read_table main in
        match df_rows df, df_columns df with
        | [], _ | _, [] => None
        | _, all_columns =>
            match value_1_idx all_columns with
            | None => None
            | Some idx =>
                let keep := keep_columns all_columns idx in
                match available_events_of all_columns with
                | [] => None
                | available_events =>
                    match summarize_rows available_events [] (df_rows df) with
                    | Ok summarized_rows =>
                        Some (mkSummary main keep available_events
                                summarized_rows)
                    | Raise _ => None
                    end
                end
            end
        end
    end.

(** * Properties *)

(** ** Comparisons and rounding to the nearest double *)

Lemma Qltb_true (x y : Q) : Qltb x y = true ↔ (x < y)%Q.
Proof.
  unfold Qltb. rewrite Qlt_alt.
  destruct (x ?= y)%Q; split; congruence.
Qed.

Lemma Qltb_false (x y : Q) : Qltb x y = false ↔ (y <= x)%Q.
Proof.
  rewrite <- not_true_iff_false, Qltb_true.
  split; [apply Qnot_lt_le | apply Qle_not_lt].
Qed.

Lemma Qeqb_true (x y : Q) : Qeqb x y = true ↔ (x == y)%Q.
Proof.
  unfold Qeqb. rewrite Qeq_alt.
  destruct (x ?= y)%Q; split; congruence.
Qed.

Lemma Qeqb_false (x y : Q) : Qeqb x y = false ↔ ¬ (x == y)%Q.
Proof. rewrite <- not_true_iff_false, Qeqb_true. reflexivity. Qed.

Lemma round_half_even_integer (x : Q) (k : Z) :
  (x == inject_Z k)%Q → round_half_even x = k.
Proof.
  intros Hx. unfold round_half_even.
  assert (Hf : Qfloor x = k) by (rewrite Hx; apply Qfloor_Z).
  rewrite Hf.
  assert (Hlt : (x - inject_Z k < 1 # 2)%Q) by (rewrite Hx; ring_simplify; reflexivity).
  rewrite (proj1 (Qlt_alt _ _) Hlt). reflexivity.
Qed.

Lemma rnd_Qeq (x y : Q) : (x == y)%Q → rnd x = rnd y.
Proof. intros H. unfold rnd. rewrite (Qred_complete x y H). reflexivity. Qed.

Lemma rnd_zero (x : Q) : (x == 0)%Q → rnd x = Fin 0.
Proof. intros H. rewrite (rnd_Qeq x 0 H). reflexivity. Qed.

Lemma pow2_nonneg (e : Z) : 0 <= e → (pow2 e == inject_Z (2 ^ e))%Q.
Proof. intros He. unfold pow2. symmetry. apply (Zpower_Qpower 2 e He). Qed.

Lemma pow2_neg (e : Z) : 0 <= e → (pow2 (- e) * inject_Z (2 ^ e) == 1)%Q.
Proof.
  intros He. unfold pow2. rewrite Qpower_opp, (Zpower_Qpower 2 e He).
  change (inject_Z 2) with 2%Q. rewrite Qmult_comm. apply Qmult_inv_r.
  apply Qpower_not_0. discriminate.
Qed.

Lemma Qdiv_by_inverse (x u v : Q) :
  (u * v == 1)%Q → (x / u == x * v)%Q.
Proof.
  intros H.
  assert (Hnz : ¬ (u == 0)%Q).
  { intros Hz. rewrite Hz, Qmult_0_l in H. discriminate H. }
  unfold Qdiv. apply Qmult_comp; [reflexivity |].
  apply (Qmult_inj_r _ _ u Hnz).
  rewrite (Qmult_comm (/ u)), Qmult_inv_r by assumption.
  rewrite (Qmult_comm v). symmetry. assumption.
Qed.

(** Integers below [2^53] are doubles. *)
Lemma rnd_pos_integer (p : positive) :
  Zpos p < 2 ^ 53 → rnd_pos (inject_Z (Zpos p)) = Fin (inject_Z (Zpos p)).
Proof.
  intros Hp. set (k := Zpos p) in *.
  assert (Hk : 0 < k) by (unfold k; lia).
  destruct (Z.log2_spec k Hk) as [Hlo Hhi].
  pose proof (Z.log2_nonneg k) as Ha.
  set (a := Z.log2 k) in *.
  assert (Ha52 : a <= 52).
  { destruct (Z_le_gt_dec a 52) as [H | H]; [assumption | exfalso].
    assert (2 ^ 53 <= 2 ^ a) by (apply Z.pow_le_mono_r; lia). lia. }
  assert (Hbin : binade (inject_Z k) = a).
  { unfold binade. simpl Qnum. simpl Qden. change (Z.log2 1) with 0.
    rewrite Z.sub_0_r. fold a.
    rewrite (proj2 (Qle_bool_iff _ _)); [reflexivity |].
    rewrite (pow2_nonneg a Ha). rewrite <- Zle_Qle. assumption. }
  unfold rnd_pos, rounded, ulp_of. rewrite Hbin.
  rewrite Z.max_l by lia.
  assert (Hulp : (pow2 (a - 52) * inject_Z (2 ^ (52 - a)) == 1)%Q).
  { replace (a - 52) with (- (52 - a)) by lia. apply pow2_neg. lia. }
  assert (Hscaled : (inject_Z k / pow2 (a - 52)
                     == inject_Z (k * 2 ^ (52 - a)))%Q).
  { rewrite inject_Z_mult. apply Qdiv_by_inverse. assumption. }
  rewrite (round_half_even_integer _ _ Hscaled).
  assert (Hr : (inject_Z (k * 2 ^ (52 - a)) * pow2 (a - 52) == inject_Z k)%Q).
  { rewrite inject_Z_mult, <- Qmult_assoc.
    rewrite (Qmult_comm (inject_Z (2 ^ (52 - a)))), Hulp. apply Qmult_1_r. }
  assert (Hsmall : Qle_bool (pow2 1024)
                     (inject_Z (k * 2 ^ (52 - a)) * pow2 (a - 52)) = false).
  { apply not_true_iff_false. rewrite Qle_bool_iff, Hr.
    rewrite (pow2_nonneg 1024) by lia. rewrite <- Zle_Qle.
    assert (2 ^ 53 < 2 ^ 1024) by (apply Z.pow_lt_mono_r; lia). lia. }
  rewrite Hsmall. f_equal.
  rewrite (Qred_complete _ _ Hr). apply Qred_identity. apply Z.gcd_1_r.
Qed.

Lemma rnd_integer (k : Z) :
  0 <= k <= 2 ^ 53 → rnd (inject_Z k) = Fin (inject_Z k).
Proof.
  intros [Hlo Hhi].
  destruct (Z.eq_dec k (2 ^ 53)) as [-> | Hne]; [vm_compute; reflexivity |].
  unfold rnd.
  assert (Hred : Qred (inject_Z k) = inject_Z k)
    by (apply Qred_identity, Z.gcd_1_r).
  rewrite Hred. destruct k as [|p|p]; [reflexivity | | lia].
  apply rnd_pos_integer. lia.
Qed.

Lemma rnd_integer_Qeq (x : Q) (k : Z) :
  (x == inject_Z k)%Q → 0 <= k <= 2 ^ 53 → rnd x = Fin (inject_Z k).
Proof. intros Hx Hk. rewrite (rnd_Qeq _ _ Hx). apply rnd_integer. assumption. Qed.

(** ** Rounding is monotone *)

Lemma pow2_pos (e : Z) : (0 < pow2 e)%Q.
Proof. apply Qpower_0_lt. reflexivity. Qed.

Lemma pow2_add (a b : Z) : (pow2 (a + b) == pow2 a * pow2 b)%Q.
Proof. apply Qpower_plus. discriminate. Qed.

Lemma pow2_le (a b : Z) : a <= b → (pow2 a <= pow2 b)%Q.
Proof. intros H. apply Qpower_le_compat_l; [assumption | discriminate]. Qed.

Lemma pow2_lt_inv (a b : Z) : (pow2 a < pow2 b)%Q → a < b.
Proof. intros H. apply (Qpower_lt_compat_l_inv 2); [assumption | reflexivity]. Qed.

(** [binade] is the binary exponent. *)
Lemma binade_spec (x : Q) :
  (0 < x)%Q → (pow2 (binade x) <= x)%Q ∧ (x < pow2 (binade x + 1))%Q.
Proof.
  intros Hx. destruct x as [a b].
  assert (Ha : 0 < a).
  { unfold Qlt in Hx. simpl in Hx. lia. }
  unfold binade. cbn [Qnum Qden].
  destruct (Z.log2_spec a Ha) as [Halo Hahi].
  destruct (Z.log2_spec (Zpos b) (Pos2Z.is_pos b)) as [Hblo Hbhi].
  pose proof (Z.log2_nonneg a) as Hla.
  pose proof (Z.log2_nonneg (Zpos b)) as Hlb.
  set (la := Z.log2 a) in *. set (lb := Z.log2 (Zpos b)) in *.
  assert (Hb : (0 < inject_Z (Zpos b))%Q) by reflexivity.
  assert (Hx' : (a # b == inject_Z a / inject_Z (Zpos b))%Q)
    by (apply Qmake_Qdiv).
  (* x < 2^(la+1) / 2^lb and 2^la / 2^(lb+1) < x *)
  assert (Hup : (a # b < pow2 (la - lb + 1))%Q).
  { rewrite Hx'. apply Qlt_shift_div_r; [assumption |].
    apply Qlt_le_trans with (inject_Z (2 ^ Z.succ la)).
    - rewrite <- Zlt_Qlt. assumption.
    - replace (la - lb + 1) with (Z.succ la + - lb) by lia.
      rewrite pow2_add.
      rewrite <- (pow2_nonneg (Z.succ la)) by lia.
      rewrite <- Qmult_assoc.
      rewrite <- (Qmult_1_r (pow2 (Z.succ la))) at 1.
      apply Qmult_le_l; [apply pow2_pos |].
      apply Qle_trans with (pow2 (- lb) * inject_Z (2 ^ lb))%Q.
      + rewrite pow2_neg by lia. apply Qle_refl.
      + apply Qmult_le_l; [apply pow2_pos |].
        rewrite <- Zle_Qle. assumption. }
  assert (Hdown : (pow2 (la - lb - 1) < a # b)%Q).
  { rewrite Hx'. apply Qlt_shift_div_l; [assumption |].
    apply Qlt_le_trans with (inject_Z (2 ^ la)); [| rewrite <- Zle_Qle; assumption].
    replace (la - lb - 1) with (la + - Z.succ lb) by lia.
    rewrite pow2_add, <- (pow2_nonneg la) by lia.
    rewrite <- Qmult_assoc.
    rewrite <- (Qmult_1_r (pow2 la)) at 2.
    apply Qmult_lt_l; [apply pow2_pos |].
    apply Qlt_le_trans with (pow2 (- Z.succ lb) * inject_Z (2 ^ Z.succ lb))%Q.
    - apply Qmult_lt_l; [apply pow2_pos |].
      rewrite <- Zlt_Qlt. assumption.
    - rewrite pow2_neg by lia. apply Qle_refl. }
  destruct (Qle_bool (pow2 (la - lb)) (a # b)) eqn:Hc.
  - apply Qle_bool_iff in Hc. split; assumption.
  - split; [apply Qlt_le_weak; assumption |].
    replace (la - lb - 1 + 1) with (la - lb) by lia.
    apply Qnot_le_lt. intros Hle. apply Qle_bool_iff in Hle. congruence.
Qed.

Lemma binade_mono (x y : Q) :
  (0 < x)%Q → (x <= y)%Q → binade x <= binade y.
Proof.
  intros Hx Hxy.
  destruct (binade_spec x Hx) as [Hlo _].
  destruct (binade_spec y (Qlt_le_trans _ _ _ Hx Hxy)) as [_ Hhi].
  assert (H : binade x < binade y + 1); [| lia].
  apply pow2_lt_inv.
  apply Qle_lt_trans with x; [assumption |].
  apply Qle_lt_trans with y; assumption.
Qed.

Lemma round_half_even_bounds (x : Q) :
  Qfloor x <= round_half_even x <= Qfloor x + 1.
Proof.
  unfold round_half_even.
  destruct (x - inject_Z (Qfloor x) ?= 1 # 2)%Q;
    [destruct (Z.even (Qfloor x)) | |]; lia.
Qed.

Lemma round_half_even_mono (x y : Q) :
  (x <= y)%Q → round_half_even x <= round_half_even y.
Proof.
  intros Hxy.
  pose proof (Qfloor_resp_le x y Hxy) as Hf.
  destruct (Z.eq_dec (Qfloor x) (Qfloor y)) as [Heq | Hne].
  - unfold round_half_even. rewrite <- Heq.
    set (f := Qfloor x).
    assert (Hfrac : (x - inject_Z f <= y - inject_Z f)%Q).
    { apply Qplus_le_l with (z := inject_Z f). ring_simplify. assumption. }
    destruct (x - inject_Z f ?= 1 # 2)%Q eqn:Cx;
      destruct (y - inject_Z f ?= 1 # 2)%Q eqn:Cy;
      try match goal with
          | |- context [Z.even f] => destruct (Z.even f)
          end;
      try lia; exfalso.
    + apply Qeq_alt in Cx. apply Qlt_alt in Cy. rewrite Cx in Hfrac.
      apply (Qlt_irrefl (1 # 2)). eapply Qle_lt_trans; eassumption.
    + apply Qgt_alt in Cx. apply Qeq_alt in Cy. rewrite Cy in Hfrac.
      apply (Qlt_irrefl (1 # 2)). eapply Qlt_le_trans; eassumption.
    + apply Qgt_alt in Cx. apply Qlt_alt in Cy.
      apply (Qlt_irrefl (1 # 2)).
      eapply Qlt_le_trans; [eassumption |].
      eapply Qle_trans; [eassumption |]. apply Qlt_le_weak. assumption.
  - pose proof (round_half_even_bounds x). pose proof (round_half_even_bounds y).
    lia.
Qed.

Lemma round_half_even_le (x : Q) (k : Z) :
  (x <= inject_Z k)%Q → round_half_even x <= k.
Proof.
  intros H. rewrite <- (round_half_even_integer (inject_Z k) k (Qeq_refl _)).
  apply round_half_even_mono. assumption.
Qed.

Lemma round_half_even_ge (x : Q) (k : Z) :
  (inject_Z k <= x)%Q → k <= round_half_even x.
Proof.
  intros H. rewrite <- (round_half_even_integer (inject_Z k) k (Qeq_refl _)).
  apply round_half_even_mono. assumption.
Qed.

Lemma ulp_of_pos (x : Q) : (0 < ulp_of x)%Q.
Proof. apply pow2_pos. Qed.

Lemma rounded_nonneg (x : Q) : (0 <= x)%Q → (0 <= rounded x)%Q.
Proof.
  intros Hx. unfold rounded. apply Qmult_le_0_compat.
  - change 0%Q with (inject_Z 0). rewrite <- Zle_Qle.
    apply round_half_even_ge. apply Qle_shift_div_l; [apply ulp_of_pos |].
    rewrite Qmult_0_l. assumption.
  - apply Qlt_le_weak, ulp_of_pos.
Qed.

(** On the spacing [2^(c-52)] the number [2^c * m] is the integer
    [2^52 * m]. *)
Lemma pow2_scaled (c : Z) : (pow2 c == inject_Z (2 ^ 52) * pow2 (c - 52))%Q.
Proof.
  replace c with (52 + (c - 52)) at 1 by lia.
  rewrite pow2_add, (pow2_nonneg 52) by lia. reflexivity.
Qed.

Lemma rounded_mono (x y : Q) :
  (0 < x)%Q → (x <= y)%Q → (rounded x <= rounded y)%Q.
Proof.
  intros Hx Hxy.
  assert (Hy : (0 < y)%Q) by (eapply Qlt_le_trans; eassumption).
  pose proof (binade_mono x y Hx Hxy) as He.
  destruct (binade_spec x Hx) as [_ Hxhi].
  destruct (binade_spec y Hy) as [Hylo _].
  unfold rounded, ulp_of.
  set (cx := Z.max (binade x) (-1022)). set (cy := Z.max (binade y) (-1022)).
  destruct (Z.eq_dec cx cy) as [Hc | Hc].
  - rewrite <- Hc. apply Qmult_le_compat_r; [| apply Qlt_le_weak, pow2_pos].
    rewrite <- Zle_Qle. apply round_half_even_mono.
    apply Qmult_le_compat_r; [assumption |].
    apply Qlt_le_weak, Qinv_lt_0_compat, pow2_pos.
  - assert (Hcy : cy = binade y) by lia.
    assert (Hcxy : cx + 1 <= cy) by lia.
    apply Qle_trans with (pow2 (cx + 1)).
    + rewrite (pow2_scaled (cx + 1)).
      replace (cx + 1 - 52) with (1 + (cx - 52)) by lia.
      rewrite pow2_add, Qmult_assoc.
      apply Qmult_le_compat_r; [| apply Qlt_le_weak, pow2_pos].
      change (pow2 1) with (inject_Z 2).
      rewrite <- inject_Z_mult, <- Zle_Qle.
      apply round_half_even_le.
      apply Qle_shift_div_r; [apply pow2_pos |].
      rewrite inject_Z_mult, <- Qmult_assoc.
      change (inject_Z 2) with (pow2 1).
      rewrite <- pow2_add.
      replace (1 + (cx - 52)) with (cx + 1 - 52) by lia.
      rewrite <- pow2_scaled.
      apply Qle_trans with (pow2 (binade x + 1));
        [apply Qlt_le_weak; assumption | apply pow2_le; lia].
    + apply Qle_trans with (pow2 cy); [apply pow2_le; assumption |].
      rewrite (pow2_scaled cy) at 1.
      apply Qmult_le_compat_r; [| apply Qlt_le_weak, pow2_pos].
      rewrite <- Zle_Qle. apply round_half_even_ge.
      apply Qle_shift_div_l; [apply pow2_pos |].
      rewrite <- pow2_scaled, Hcy. assumption.
Qed.

Lemma rnd_pos_rounded (x : Q) :
  rnd_pos x = if Qle_bool (pow2 1024) (rounded x) then Inf false
              else Fin (Qred (rounded x)).
Proof. reflexivity. Qed.

Lemma rnd_pos_le (x y d : Q) :
  (0 < x)%Q → (x <= y)%Q → rnd_pos y = Fin d →
  ∃ a, rnd_pos x = Fin a ∧ (0 <= a)%Q ∧ (a <= d)%Q.
Proof.
  intros Hx Hxy. rewrite !rnd_pos_rounded.
  pose proof (rounded_mono x y Hx Hxy) as Hmono.
  destruct (Qle_bool (pow2 1024) (rounded y)) eqn:Hy; [discriminate |].
  intros [= <-].
  destruct (Qle_bool (pow2 1024) (rounded x)) eqn:Hbig.
  - exfalso. apply Qle_bool_iff in Hbig.
    assert (Hy' : Qle_bool (pow2 1024) (rounded y) = true)
      by (apply Qle_bool_iff; eapply Qle_trans; eassumption).
    congruence.
  - exists (Qred (rounded x)). split; [reflexivity |].
    rewrite !Qred_correct. split; [| assumption].
    apply rounded_nonneg, Qlt_le_weak. assumption.
Qed.

Lemma Qnum_Qred_pos (x : Q) :
  (0 < x)%Q → ∃ p, Qnum (Qred x) = Zpos p.
Proof.
  intros Hx. rewrite <- (Qred_correct x) in Hx.
  destruct (Qred x) as [[|p|p] b]; [| eauto |];
    unfold Qlt in Hx; simpl in Hx; lia.
Qed.

Lemma rnd_of_pos (x : Q) : (0 < x)%Q → rnd x = rnd_pos (Qred x).
Proof.
  intros Hx. unfold rnd. destruct (Qnum_Qred_pos x Hx) as [p ->].
  reflexivity.
Qed.

(** Rounding keeps the order, and what lies below a finite double is
    rounded to a finite double. *)
Lemma rnd_le (x y d : Q) :
  (0 <= x)%Q → (x <= y)%Q → rnd y = Fin d →
  ∃ a, rnd x = Fin a ∧ (0 <= a)%Q ∧ (a <= d)%Q.
Proof.
  intros Hx Hxy Hd.
  assert (Hd0 : (0 <= d)%Q).
  { destruct (Qlt_le_dec 0 y) as [Hy | Hy].
    - rewrite (rnd_of_pos y Hy), rnd_pos_rounded in Hd.
      destruct (Qle_bool _ _); [discriminate |]. injection Hd as <-.
      rewrite Qred_correct. apply rounded_nonneg.
      rewrite Qred_correct. apply Qlt_le_weak. assumption.
    - assert (Hy0 : (y == 0)%Q)
        by (apply Qle_antisym; [| eapply Qle_trans]; eassumption).
      rewrite (rnd_zero y Hy0) in Hd. injection Hd as <-. apply Qle_refl. }
  destruct (Qlt_le_dec 0 x) as [Hx0 | Hx0].
  - assert (Hy : (0 < y)%Q) by (eapply Qlt_le_trans; eassumption).
    rewrite (rnd_of_pos x Hx0). rewrite (rnd_of_pos y Hy) in Hd.
    apply (rnd_pos_le (Qred x) (Qred y) d); [| | assumption];
      rewrite !Qred_correct; assumption.
  - assert (Hz : (x == 0)%Q) by (apply Qle_antisym; assumption).
    rewrite (rnd_zero x Hz). exists 0%Q.
    split; [reflexivity |]. split; [apply Qle_refl | assumption].
Qed.

Lemma rnd_le_Fin (x y a d : Q) :
  (0 <= x)%Q → (x <= y)%Q → rnd x = Fin a → rnd y = Fin d → (a <= d)%Q.
Proof.
  intros Hx Hxy Ha Hd.
  destruct (rnd_le x y d Hx Hxy Hd) as (a' & Ha' & _ & Hle).
  rewrite Ha in Ha'. injection Ha' as <-. assumption.
Qed.

Lemma py_div_nonzero (x y : pyfloat) :
  is_zero y = false → py_div x y = Ok (fdiv x y).
Proof. intros Hy. unfold py_div. rewrite Hy. reflexivity. Qed.

(** Case analysis on the guards of [time_to_frame]. *)
Ltac guards :=
  repeat match goal with
  | |- context [Qltb ?a ?b] =>
      let E := fresh "E" in
      destruct (Qltb a b) eqn:E;
      [apply Qltb_true in E | apply Qltb_false in E]
  | |- context [Qeqb ?a ?b] =>
      let E := fresh "E" in
      destruct (Qeqb a b) eqn:E;
      [apply Qeqb_true in E | apply Qeqb_false in E]
  end.

(** Running a bind whose first computation is known. *)
Ltac step := unfold mbind, result_bind; cbv beta iota.

Lemma fnum_le_int (n k : Z) : fnum_le (Int n) k = false ↔ k < n.
Proof. simpl. rewrite Z.leb_gt. reflexivity. Qed.

(** ** [time_to_frame]: interpolation on concrete inputs *)

(** The middle of the window [0, 1] falls on the middle one of three
    frames. *)
Example time_to_frame_mid :
  time_to_frame (Some (1 # 2)%Q) (Some 0%Q) (Some 1%Q) (Int 3) = Ok (Some (Int 2)).
Proof. vm_compute. reflexivity. Qed.

(** A quarter of the window gives [1.5], a tie, rounded to the even frame 2;
    three quarters gives [2.5], rounded to 2 as well. *)
Example time_to_frame_half_even :
  time_to_frame (Some (1 # 4)%Q) (Some 0%Q) (Some 1%Q) (Int 3) = Ok (Some (Int 2))
  ∧ time_to_frame (Some (3 # 4)%Q) (Some 0%Q) (Some 1%Q) (Int 3) = Ok (Some (Int 2)).
Proof. split; vm_compute; reflexivity. Qed.

(** A NaN frame count reaches [round] and raises there, and it makes the
    scan of [get_max_value] raise. *)
Example nan_frame_count_raises :
  time_to_frame (Some (1 # 2)%Q) (Some 0%Q) (Some 1%Q) NaN = Raise ValueError
  ∧ get_max_value (samples_row 3 [Some 1%Q]) (Some NaN) = Raise TypeError.
Proof. split; vm_compute; reflexivity. Qed.

(** The arithmetic is the one of doubles.  With the doubles nearest to
    1.85, 0.1 and 5.0 and eight frames the computed position falls just
    below 3.5; a window from [-2^1023] to [2^1023] overflows, and the event
    at its end gives NaN, on which [round] raises; and with [2^53 + 2]
    frames the end of the window is mapped two frames short. *)
Example time_to_frame_doubles :
  time_to_frame (Some (8331659310635418 # 4503599627370496)%Q)
    (Some (3602879701896397 # 36028797018963968)%Q) (Some 5%Q) (Int 8)
    = Ok (Some (Int 3))
  ∧ time_to_frame (Some (inject_Z (2 ^ 1023))) (Some (inject_Z (- 2 ^ 1023)))
      (Some (inject_Z (2 ^ 1023))) (Int 3)
    = Raise ValueError
  ∧ time_to_frame (Some 1%Q) (Some 0%Q) (Some 1%Q) (Int (2 ^ 53 + 2))
    = Ok (Some (Int (2 ^ 53))).
Proof. repeat split; vm_compute; reflexivity. Qed.

(** ** [time_to_frame]: undefined results *)

(** C7: [time_to_frame] returns [None], and no frame number, whenever the
    event time, the start time or the end time is missing, or the frame
    count is at most one. *)
Theorem time_to_frame_undefined (event_time time_start time_end : cell)
    (frames : fnum) :
  event_time = None ∨ time_start = None ∨ time_end = None
    ∨ (∃ n, frames = Int n ∧ n <= 1) →
  time_to_frame event_time time_start time_end frames = Ok None.
Proof.
  unfold time_to_frame, time_to_frame_with.
  intros [-> | [-> | [-> | (n & -> & Hn)]]].
  - reflexivity.
  - destruct event_time; reflexivity.
  - destruct event_time, time_start; reflexivity.
  - destruct event_time, time_start, time_end; try reflexivity.
    simpl. apply Z.leb_le in Hn. rewrite Hn. reflexivity.
Qed.

Lemma time_to_frame_undefined_witness :
  time_to_frame (Some 2%Q) None (Some 3%Q) (Int 10) = Ok None
  ∧ time_to_frame (Some 2%Q) (Some 1%Q) (Some 3%Q) (Int 1) = Ok None.
Proof.
  split.
  - apply (time_to_frame_undefined (Some 2%Q) None (Some 3%Q) (Int 10)).
    right. left. reflexivity.
  - apply (time_to_frame_undefined (Some 2%Q) (Some 1%Q) (Some 3%Q) (Int 1)).
    right. right. right. exists 1. split; [reflexivity | lia].
Defined.

(** ** [time_to_frame]: range of the result *)

Lemma time_to_frame_with_frame (div : pyfloat → pyfloat → result pyfloat)
    (event_time time_start time_end : cell) (n : Z) (f : fnum) :
  time_to_frame_with div event_time time_start time_end (Int n) = Ok (Some f) →
  ∃ k, f = Int k ∧ 1 <= k <= n.
Proof.
  unfold time_to_frame_with.
  destruct event_time as [t|], time_start as [ts|], time_end as [te|];
    try discriminate.
  destruct (fnum_le (Int n) 1) eqn:Hn; [discriminate |].
  apply fnum_le_int in Hn.
  guards; try (intros [= <-]; eexists; split; [reflexivity | lia]).
  destruct (div _ _) as [ratio|e]; [| discriminate]. step.
  destruct (frames_minus_1 (Int n)) as [scale|e]; [| discriminate]. step.
  destruct (py_round _) as [frame|e]; [| discriminate]. step.
  intros [= <-]. eexists; split; [reflexivity |]. unfold clamp_frame. lia.
Qed.

Lemma time_to_frame_frame (event_time time_start time_end : cell)
    (n : Z) (f : fnum) :
  time_to_frame event_time time_start time_end (Int n) = Ok (Some f) →
  ∃ k, f = Int k ∧ 1 <= k <= n.
Proof. apply time_to_frame_with_frame. Qed.

(** C4: the claim fails on a frame count that is NaN.  The driver leaves
    the NaN of a NULL [frames] cell as it is and, NaN being truthy, passes
    it on; NaN is not [<= 1], and for an event past [time_end] the function
    returns [frames] itself, NaN, which is a defined result and no integer
    between 1 and the frame count. *)
Theorem time_to_frame_nan_frame_count :
  convert_frames (CellFloat FNaN) = Ok (Some NaN)
  ∧ truthy (Some NaN) = true
  ∧ time_to_frame (Some 2%Q) (Some 0%Q) (Some 1%Q) NaN = Ok (Some NaN)
  ∧ ¬ ∃ k, NaN = Int k.
Proof.
  split; [reflexivity |]. split; [reflexivity |]. split; [reflexivity |].
  intros [k Hk]. discriminate.
Qed.

(** ** [time_to_frame]: inverted windows *)

(** C10: on an inverted window ([time_end < time_start]) with nothing
    missing and more than one frame, [time_to_frame] returns frame 1 when
    the event precedes [time_start] and the last frame otherwise; the
    result is the same whatever the division would do, raising included,
    so the division is not reached. *)
Theorem time_to_frame_inverted (div : pyfloat → pyfloat → result pyfloat)
    (t ts te : Q) (n : Z) :
  (te < ts)%Q → 1 < n →
  time_to_frame_with div (Some t) (Some ts) (Some te) (Int n)
    = time_to_frame (Some t) (Some ts) (Some te) (Int n)
  ∧ ((t < ts)%Q →
     time_to_frame (Some t) (Some ts) (Some te) (Int n) = Ok (Some (Int 1)))
  ∧ (¬ (t < ts)%Q →
     time_to_frame (Some t) (Some ts) (Some te) (Int n) = Ok (Some (Int n))).
Proof.
  intros Hinv Hn. apply fnum_le_int in Hn.
  unfold time_to_frame, time_to_frame_with. rewrite Hn.
  split; [| split].
  - guards; try reflexivity.
    exfalso. apply (Qlt_irrefl ts).
    apply Qle_lt_trans with (y := t); [assumption |].
    apply Qle_lt_trans with (y := te); assumption.
  - intros Hlt. apply Qltb_true in Hlt. rewrite Hlt. reflexivity.
  - intros Hge. apply Qnot_lt_le in Hge.
    rewrite (proj2 (Qltb_false t ts) Hge).
    assert (Hhigh : (te < t)%Q) by (apply Qlt_le_trans with (y := ts); assumption).
    apply Qltb_true in Hhigh. rewrite Hhigh. reflexivity.
Qed.

Lemma time_to_frame_inverted_witness :
  (0 < 1)%Q ∧ 1 < 3
  ∧ time_to_frame_with (λ _ _, Raise ZeroDivisionError)
      (Some (1 # 2)%Q) (Some 1%Q) (Some 0%Q) (Int 3)
    = time_to_frame (Some (1 # 2)%Q) (Some 1%Q) (Some 0%Q) (Int 3)
  ∧ (((1 # 2) < 1)%Q →
     time_to_frame (Some (1 # 2)%Q) (Some 1%Q) (Some 0%Q) (Int 3)
       = Ok (Some (Int 1)))
  ∧ (¬ ((1 # 2) < 1)%Q →
     time_to_frame (Some (1 # 2)%Q) (Some 1%Q) (Some 0%Q) (Int 3)
       = Ok (Some (Int 3))).
Proof.
  split; [reflexivity |]. split; [lia |].
  apply (time_to_frame_inverted (λ _ _, Raise ZeroDivisionError)
           (1 # 2)%Q 1%Q 0%Q 3); [reflexivity | lia].
Defined.

(** ** [time_to_frame]: degenerate windows *)

(** C2, as stated, fails: with [time_start = time_end = 5] and three frames
    an event at [6] is past [time_end], and the clamp to the last frame is
    tested before the window is found to be degenerate. *)
Lemma time_to_frame_degenerate_counterexample :
  time_to_frame (Some 6%Q) (Some 5%Q) (Some 5%Q) (Int 3) = Ok (Some (Int 3))
  ∧ time_to_frame (Some 6%Q) (Some 5%Q) (Some 5%Q) (Int 3) ≠ Ok (Some (Int 1)).
Proof. split; [reflexivity | discriminate]. Qed.

Lemma time_to_frame_with_equal_bounds
    (div : pyfloat → pyfloat → result pyfloat) (t ts te : Q) (n : Z) :
  (te == ts)%Q → 1 < n →
  time_to_frame_with div (Some t) (Some ts) (Some te) (Int n)
    = Ok (Some (Int (if Qltb te t then n else 1))).
Proof.
  intros Hdeg Hn. apply fnum_le_int in Hn.
  unfold time_to_frame_with. rewrite Hn.
  guards; try reflexivity.
  - exfalso. apply (Qlt_irrefl t).
    apply Qlt_trans with (y := ts); [assumption |].
    rewrite <- Hdeg. assumption.
  - contradiction.
Qed.

Lemma time_to_frame_equal_bounds (t ts te : Q) (n : Z) :
  (te == ts)%Q → 1 < n →
  time_to_frame (Some t) (Some ts) (Some te) (Int n)
    = Ok (Some (Int (if Qltb te t then n else 1))).
Proof. apply time_to_frame_with_equal_bounds. Qed.

(** C2, amended: on a degenerate window ([time_end == time_start]) with
    nothing missing and more than one frame, [time_to_frame] returns frame 1
    for every event time up to [time_end] and the last frame for every
    event time beyond it. *)
Theorem time_to_frame_degenerate (t ts te : Q) (n : Z) :
  (te == ts)%Q → 1 < n →
  ((t <= te)%Q →
   time_to_frame (Some t) (Some ts) (Some te) (Int n) = Ok (Some (Int 1)))
  ∧ ((te < t)%Q →
     time_to_frame (Some t) (Some ts) (Some te) (Int n) = Ok (Some (Int n))).
Proof.
  intros Hdeg Hn. rewrite time_to_frame_equal_bounds by assumption.
  split.
  - intros Hle. rewrite (proj2 (Qltb_false te t) Hle). reflexivity.
  - intros Hlt. rewrite (proj2 (Qltb_true te t) Hlt). reflexivity.
Qed.

Lemma time_to_frame_degenerate_witness :
  (5 == 5)%Q ∧ 1 < 3
  ∧ ((4 <= 5)%Q →
     time_to_frame (Some 4%Q) (Some 5%Q) (Some 5%Q) (Int 3) = Ok (Some (Int 1)))
  ∧ ((5 < 6)%Q →
     time_to_frame (Some 6%Q) (Some 5%Q) (Some 5%Q) (Int 3) = Ok (Some (Int 3))).
Proof.
  split; [reflexivity |]. split; [lia |].
  split.
  - apply (time_to_frame_degenerate 4%Q 5%Q 5%Q 3); [reflexivity | lia].
  - apply (time_to_frame_degenerate 6%Q 5%Q 5%Q 3); [reflexivity | lia].
Defined.

(** ** [time_to_frame]: the endpoints of the window *)

(** C6, as stated, fails: on the degenerate window [5, 5] the end of the
    window is mapped to frame 1, not to the last of three frames; on the
    ordered window from [-2^1023] to [2^1023] the difference of the bounds
    overflows and the end of the window makes [round] raise; and with
    [2^53 + 2] frames the factor [frames - 1] and the sum are rounded, so
    that the end of the window [0, 1] is mapped to frame [2^53]. *)
Lemma time_to_frame_endpoints_counterexample :
  time_to_frame (Some 5%Q) (Some 5%Q) (Some 5%Q) (Int 3) = Ok (Some (Int 1))
  ∧ time_to_frame (Some 5%Q) (Some 5%Q) (Some 5%Q) (Int 3) ≠ Ok (Some (Int 3))
  ∧ time_to_frame (Some (inject_Z (2 ^ 1023))) (Some (inject_Z (- 2 ^ 1023)))
      (Some (inject_Z (2 ^ 1023))) (Int 3)
    = Raise ValueError
  ∧ time_to_frame (Some 1%Q) (Some 0%Q) (Some 1%Q) (Int (2 ^ 53 + 2))
    = Ok (Some (Int (2 ^ 53))).
Proof.
  split; [reflexivity |]. split; [discriminate |].
  split; vm_compute; reflexivity.
Qed.

Lemma fsub_self (x : Q) : fsub (Fin x) (Fin x) = Fin 0.
Proof. unfold fsub, fneg, fadd. apply rnd_zero. ring. Qed.

Lemma float_of_int_exact (k : Z) :
  0 <= k <= 2 ^ 53 → float_of_int k = Ok (Fin (inject_Z k)).
Proof. intros Hk. unfold float_of_int. rewrite rnd_integer by assumption. reflexivity. Qed.

(** C6, amended: for [time_start < time_end] whose difference, computed in
    floats, is finite and not zero, nothing missing and a frame count above
    one and at most [2^53], [time_to_frame] maps [time_start] to frame 1 and
    [time_end] to the last frame. *)
Theorem time_to_frame_endpoints (ts te d : Q) (n : Z) :
  (ts < te)%Q → 1 < n <= 2 ^ 53 →
  fsub (Fin te) (Fin ts) = Fin d → ¬ (d == 0)%Q →
  time_to_frame (Some ts) (Some ts) (Some te) (Int n) = Ok (Some (Int 1))
  ∧ time_to_frame (Some te) (Some ts) (Some te) (Int n) = Ok (Some (Int n)).
Proof.
  intros Hlt [Hn Hn53] Hd Hnz.
  assert (Hne : ¬ (te == ts)%Q).
  { intros Heq. rewrite Heq in Hlt. exact (Qlt_irrefl ts Hlt). }
  apply fnum_le_int in Hn.
  unfold time_to_frame, time_to_frame_with. rewrite Hn.
  apply fnum_le_int in Hn.
  rewrite (proj2 (Qeqb_false te ts) Hne).
  rewrite (proj2 (Qltb_false ts ts) (Qle_refl ts)).
  rewrite (proj2 (Qltb_false te te) (Qle_refl te)).
  rewrite (proj2 (Qltb_false te ts) (Qlt_le_weak _ _ Hlt)).
  rewrite fsub_self, Hd.
  rewrite !py_div_nonzero by (apply Qeqb_false; assumption).
  unfold frames_minus_1. rewrite float_of_int_exact by lia.
  step. unfold fdiv, fmul, fadd.
  split.
  - rewrite (rnd_zero (0 / d)) by (unfold Qdiv; ring).
    rewrite (rnd_zero (0 * _)) by ring.
    rewrite (rnd_integer_Qeq (1 + 0) 1) by (reflexivity || lia).
    unfold py_round. rewrite (round_half_even_integer _ 1) by reflexivity.
    step. unfold clamp_frame. do 3 f_equal. lia.
  - rewrite (rnd_integer_Qeq (d / d) 1) by (field; assumption) || lia.
    rewrite (rnd_integer_Qeq (inject_Z 1 * inject_Z (n - 1)) (n - 1))
      by (ring || lia).
    rewrite (rnd_integer_Qeq (1 + inject_Z (n - 1)) n).
    + unfold py_round. rewrite (round_half_even_integer _ n) by reflexivity.
      step. unfold clamp_frame. do 3 f_equal. lia.
    + unfold Z.sub. rewrite inject_Z_plus, inject_Z_opp. ring.
    + lia.
Qed.

Lemma time_to_frame_endpoints_witness :
  (2 < 7)%Q ∧ 1 < 4 <= 2 ^ 53
  ∧ fsub (Fin 7) (Fin 2) = Fin 5 ∧ ¬ (5 == 0)%Q
  ∧ time_to_frame (Some 2%Q) (Some 2%Q) (Some 7%Q) (Int 4) = Ok (Some (Int 1))
  ∧ time_to_frame (Some 7%Q) (Some 2%Q) (Some 7%Q) (Int 4) = Ok (Some (Int 4)).
Proof.
  split; [reflexivity |]. split; [lia |].
  split; [vm_compute; reflexivity |]. split; [discriminate |].
  apply (time_to_frame_endpoints 2%Q 7%Q 5%Q 4);
    [reflexivity | lia | vm_compute; reflexivity | discriminate].
Defined.

(** ** [time_to_frame]: the interpolation on a finite window *)

Lemma fsub_Fin (x y : Q) : fsub (Fin x) (Fin y) = rnd (x - y).
Proof. reflexivity. Qed.

(** The float operations of the interpolation formula, one after the
    other: inside a window whose float width [d] is finite and not zero,
    and for a frame count of at most [2^53], every intermediate result is
    finite. *)
Lemma interpolation_steps (t ts te d : Q) (n : Z) :
  (ts <= t)%Q → (t <= te)%Q → ¬ (te == ts)%Q → 1 < n <= 2 ^ 53 →
  fsub (Fin te) (Fin ts) = Fin d → ¬ (d == 0)%Q →
  ∃ a r p s,
    rnd (t - ts) = Fin a ∧ rnd (a / d) = Fin r
    ∧ rnd (r * inject_Z (n - 1)) = Fin p ∧ rnd (1 + p) = Fin s
    ∧ (0 < d)%Q ∧ (0 <= a)%Q ∧ (0 <= r)%Q ∧ (0 <= p)%Q
    ∧ (1 <= s)%Q ∧ (s <= inject_Z n)%Q
    ∧ time_to_frame (Some t) (Some ts) (Some te) (Int n)
      = Ok (Some (Int (clamp_frame (round_half_even s) (Int n)))).
Proof.
  intros Hlo Hhi Hne [Hn Hn53] Hd Hnz. rewrite fsub_Fin in Hd.
  destruct (rnd_le (t - ts) (te - ts) d) as (a & Ha & Ha0 & Had);
    [| | assumption |].
  { apply (Qplus_le_l _ _ ts). ring_simplify. assumption. }
  { apply (Qplus_le_l _ _ ts). ring_simplify. assumption. }
  assert (Hd0 : (0 < d)%Q).
  { apply Qle_lteq in Had as Had'.
    destruct (Qlt_le_dec 0 d) as [H | H]; [assumption | exfalso].
    apply Hnz, Qle_antisym; [assumption |].
    eapply Qle_trans; eassumption. }
  destruct (rnd_le (a / d) 1 1) as (r & Hr & Hr0 & Hr1).
  { apply Qle_shift_div_l; [assumption |]. rewrite Qmult_0_l. assumption. }
  { apply Qle_shift_div_r; [assumption |]. rewrite Qmult_1_l. assumption. }
  { vm_compute. reflexivity. }
  destruct (rnd_le (r * inject_Z (n - 1)) (inject_Z (n - 1)) (inject_Z (n - 1)))
    as (p & Hp & Hp0 & Hp1).
  { apply Qmult_le_0_compat; [assumption |].
    change 0%Q with (inject_Z 0). rewrite <- Zle_Qle. lia. }
  { rewrite <- (Qmult_1_l (inject_Z (n - 1))) at 2.
    apply Qmult_le_compat_r; [assumption |].
    change 0%Q with (inject_Z 0). rewrite <- Zle_Qle. lia. }
  { apply rnd_integer. lia. }
  destruct (rnd_le (1 + p) (inject_Z n) (inject_Z n)) as (s & Hs & Hs0 & Hs1).
  { apply Qle_trans with (1 + 0)%Q; [discriminate |].
    apply Qplus_le_r. assumption. }
  { apply Qle_trans with (1 + inject_Z (n - 1))%Q.
    - apply Qplus_le_r. assumption.
    - unfold Z.sub. rewrite inject_Z_plus, inject_Z_opp. ring_simplify.
      apply Qle_refl. }
  { apply rnd_integer. lia. }
  assert (Hs2 : (1 <= s)%Q).
  { apply (rnd_le_Fin 1 (1 + p)); [discriminate | | vm_compute; reflexivity
                                  | assumption].
    apply Qle_trans with (1 + 0)%Q; [discriminate |].
    apply Qplus_le_r. assumption. }
  exists a, r, p, s. repeat (split; [assumption |]).
  unfold time_to_frame, time_to_frame_with.
  rewrite (proj2 (fnum_le_int n 1) Hn).
  rewrite (proj2 (Qltb_false t ts) Hlo), (proj2 (Qltb_false te t) Hhi).
  rewrite (proj2 (Qeqb_false te ts) Hne).
  rewrite !fsub_Fin, Ha, Hd.
  rewrite py_div_nonzero by (apply Qeqb_false; assumption).
  unfold frames_minus_1. rewrite float_of_int_exact by lia.
  step. unfold fdiv, fmul, fadd. rewrite Hr, Hp, Hs. reflexivity.
Qed.

Lemma time_to_frame_before (t ts te : Q) (n : Z) :
  1 < n → (t < ts)%Q →
  time_to_frame (Some t) (Some ts) (Some te) (Int n) = Ok (Some (Int 1)).
Proof.
  intros Hn Hlt. unfold time_to_frame, time_to_frame_with.
  rewrite (proj2 (fnum_le_int n 1) Hn), (proj2 (Qltb_true t ts) Hlt).
  reflexivity.
Qed.

Lemma time_to_frame_after (t ts te : Q) (n : Z) :
  1 < n → (ts <= t)%Q → (te < t)%Q →
  time_to_frame (Some t) (Some ts) (Some te) (Int n) = Ok (Some (Int n)).
Proof.
  intros Hn Hge Hlt. unfold time_to_frame, time_to_frame_with.
  rewrite (proj2 (fnum_le_int n 1) Hn), (proj2 (Qltb_false t ts) Hge).
  rewrite (proj2 (Qltb_true te t) Hlt). reflexivity.
Qed.

(** On a window of finite float width and with at most [2^53] frames,
    [time_to_frame] returns a frame for every event time. *)
Lemma time_to_frame_finite_window (t ts te d : Q) (n : Z) :
  (ts < te)%Q → 1 < n <= 2 ^ 53 →
  fsub (Fin te) (Fin ts) = Fin d → ¬ (d == 0)%Q →
  ∃ k, time_to_frame (Some t) (Some ts) (Some te) (Int n) = Ok (Some (Int k))
       ∧ 1 <= k <= n.
Proof.
  intros Hlt Hn Hd Hnz.
  assert (Hne : ¬ (te == ts)%Q).
  { intros Heq. rewrite Heq in Hlt. exact (Qlt_irrefl ts Hlt). }
  destruct (Qlt_le_dec t ts) as [Hb | Hlo].
  { exists 1. rewrite time_to_frame_before by (lia || assumption).
    split; [reflexivity | lia]. }
  destruct (Qlt_le_dec te t) as [Ha | Hhi].
  { exists n. rewrite time_to_frame_after by (lia || assumption).
    split; [reflexivity | lia]. }
  destruct (interpolation_steps t ts te d n Hlo Hhi Hne Hn Hd Hnz)
    as (a & r & p & s & _ & _ & _ & _ & _ & _ & _ & _ & _ & _ & Hframe).
  eexists. split; [exact Hframe |]. unfold clamp_frame. lia.
Qed.

(** ** [time_to_frame]: clamping *)

(** C5, as stated, fails on a window that is not degenerate but inverted:
    with [time_start = 1], [time_end = 0] and three frames, an event at
    [1/2] is past [time_end], yet it also precedes [time_start], and the
    low clamp is tested first. *)
Lemma time_to_frame_clamp_counterexample :
  ¬ (0 == 1)%Q ∧ (0 < 1 # 2)%Q
  ∧ time_to_frame (Some (1 # 2)%Q) (Some 1%Q) (Some 0%Q) (Int 3)
      = Ok (Some (Int 1))
  ∧ time_to_frame (Some (1 # 2)%Q) (Some 1%Q) (Some 0%Q) (Int 3)
      ≠ Ok (Some (Int 3)).
Proof.
  split; [discriminate |]. split; [reflexivity |].
  split; [reflexivity | discriminate].
Qed.

Lemma row_10_20_30_value_1 (t : Q) :
  get_value_at_frame (row_10_20_30 t) (Some (Int 1)) = Ok (Some 10%Q).
Proof. reflexivity. Qed.

Lemma row_10_20_30_max (t : Q) :
  get_max_value (row_10_20_30 t) (Some (Int 3)) = Ok (Some 30%Q).
Proof. reflexivity. Qed.

(** C5, amended: on a non-degenerate window with nothing missing and more
    than one frame, an event before [time_start] is mapped to frame 1, and
    an event after [time_end] that is not before [time_start] is mapped to
    the last frame; and on the row with samples [10, 20, 30], window
    [0, 1] and three frames, a footstrike before [time_start] yields the
    value [10] for that event. *)
Theorem time_to_frame_clamp (t ts te : Q) (n : Z) :
  ¬ (te == ts)%Q → 1 < n →
  ((t < ts)%Q →
   time_to_frame (Some t) (Some ts) (Some te) (Int n) = Ok (Some (Int 1)))
  ∧ ((te < t)%Q → (ts <= t)%Q →
     time_to_frame (Some t) (Some ts) (Some te) (Int n) = Ok (Some (Int n)))
  ∧ ((t < 0)%Q →
     extract_event_samples (row_10_20_30 t) footstrike
       = Ok (<["@max"%string := Some 30%Q]>
              (<["@footstrike"%string := Some 10%Q]> ∅))).
Proof.
  intros _ Hn.
  assert (Hlow : ∀ a b c m, 1 < m → (a < b)%Q →
    time_to_frame (Some a) (Some b) (Some c) (Int m) = Ok (Some (Int 1))).
  { intros a b c m Hm Hab. apply fnum_le_int in Hm.
    unfold time_to_frame, time_to_frame_with. rewrite Hm.
    apply Qltb_true in Hab. rewrite Hab. reflexivity. }
  split; [| split].
  - apply Hlow. assumption.
  - intros Hhigh Hge. apply fnum_le_int in Hn.
    unfold time_to_frame, time_to_frame_with. rewrite Hn.
    apply Qltb_false in Hge. apply Qltb_true in Hhigh.
    rewrite Hge, Hhigh. reflexivity.
  - intros Hneg.
    unfold extract_event_samples, footstrike, for_loop, extract_event.
    assert (Hget : row_get (row_10_20_30 t) "event_footstrike_time" = Some t).
    { unfold row_get, row_10_20_30. simpl. rewrite lookup_singleton_eq.
      reflexivity. }
    simpl fst. simpl snd. rewrite Hget.
    change (row_time_start (row_10_20_30 t)) with (Some 0%Q).
    change (row_time_end (row_10_20_30 t)) with (Some 1%Q).
    change (convert_frames (row_frames (row_10_20_30 t)))
      with (Ok (Some (Int 3)) : result (option fnum)).
    step.
    change (truthy (Some (Int 3))) with true. cbn [notna andb].
    rewrite (Hlow t 0%Q 1%Q 3) by (lia || assumption).
    rewrite row_10_20_30_max. step. rewrite row_10_20_30_value_1.
    reflexivity.
Qed.

Lemma time_to_frame_clamp_witness :
  ¬ (1 == 0)%Q ∧ 1 < 3
  ∧ ((-1 < 0)%Q →
     time_to_frame (Some (-1)%Q) (Some 0%Q) (Some 1%Q) (Int 3)
       = Ok (Some (Int 1)))
  ∧ ((1 < 2)%Q → (0 <= 2)%Q →
     time_to_frame (Some 2%Q) (Some 0%Q) (Some 1%Q) (Int 3)
       = Ok (Some (Int 3)))
  ∧ ((-1 < 0)%Q →
     extract_event_samples (row_10_20_30 (-1)%Q) footstrike
       = Ok (<["@max"%string := Some 30%Q]>
              (<["@footstrike"%string := Some 10%Q]> ∅))).
Proof.
  split; [discriminate |]. split; [lia |].
  split; [| split].
  - apply (time_to_frame_clamp (-1)%Q 0%Q 1%Q 3); [discriminate | lia].
  - apply (time_to_frame_clamp 2%Q 0%Q 1%Q 3); [discriminate | lia].
  - apply (time_to_frame_clamp (-1)%Q 0%Q 1%Q 3); [discriminate | lia].
Defined.

(** ** [get_value_at_frame] and the loop of [get_max_value] *)

Lemma get_value_at_frame_sample (row : Row) (i : Z) :
  1 <= i → get_value_at_frame row (Some (Int i)) = Ok (sample row i).
Proof.
  intros Hi. unfold get_value_at_frame, in_index, row_getitem, sample.
  simpl. rewrite (proj2 (Z.ltb_ge i 1) Hi).
  destruct (row_values row !! i) as [[v|]|]; reflexivity.
Qed.

Lemma collect_value_sample (row : Row) (values : list Q) (i : Z) :
  collect_value row values i = Ok (values ++ option_list (sample row i)).
Proof.
  unfold collect_value, in_index, row_getitem, sample.
  destruct (row_values row !! i) as [[v|]|]; simpl;
    rewrite ?app_nil_r; reflexivity.
Qed.

Lemma for_loop_collect (row : Row) (frames : list Z) (values : list Q) :
  for_loop (collect_value row) values frames
    = Ok (values ++ present_samples row frames).
Proof.
  revert values. induction frames as [|i frames IH]; intros values; simpl.
  - rewrite app_nil_r. reflexivity.
  - rewrite collect_value_sample. step. rewrite IH, <- app_assoc.
    unfold present_samples. simpl.
    destruct (sample row i); reflexivity.
Qed.

(** ** [max], [index] and indexing on a list with a first largest element *)

Lemma foldl_larger_current (l : list Q) (m : Q) :
  Forall (λ y, (y <= m)%Q) l → foldl larger m l = m.
Proof.
  induction 1 as [|y l Hy _ IH]; simpl; [reflexivity |].
  unfold larger at 2. rewrite (proj2 (Qltb_false m y) Hy). exact IH.
Qed.

Lemma foldl_larger_first (l1 l2 : list Q) (m a : Q) :
  (m < a)%Q →
  Forall (λ y, (y < a)%Q) l1 → Forall (λ y, (y <= a)%Q) l2 →
  foldl larger m (l1 ++ a :: l2) = a.
Proof.
  intros Hm H1 H2. revert m Hm.
  induction H1 as [|y l1 Hy _ IH]; intros m Hm; simpl.
  - unfold larger at 2. rewrite (proj2 (Qltb_true m a) Hm).
    apply foldl_larger_current. assumption.
  - apply IH. unfold larger. destruct (Qltb m y); assumption.
Qed.

Lemma py_max_first (l1 l2 : list Q) (a : Q) :
  Forall (λ y, (y < a)%Q) l1 → Forall (λ y, (y <= a)%Q) l2 →
  py_max (l1 ++ a :: l2) = Ok a.
Proof.
  intros H1 H2. destruct H1 as [|y l1 Hy H1]; simpl; f_equal.
  - apply foldl_larger_current. assumption.
  - apply foldl_larger_first; assumption.
Qed.

Lemma py_index_first (l1 l2 : list Q) (a : Q) :
  Forall (λ y, (y < a)%Q) l1 → py_index (l1 ++ a :: l2) a = Ok (length l1).
Proof.
  induction 1 as [|y l1 Hy _ IH]; simpl.
  - rewrite (proj2 (Qeqb_true a a) (Qeq_refl a)). reflexivity.
  - rewrite (proj2 (Qeqb_false y a) (Qlt_not_eq _ _ Hy)), IH. reflexivity.
Qed.

(** The three list operations of [get_max_value] on a list whose element
    [v] is strictly larger in magnitude than everything before it and at
    least as large as everything after it. *)
Lemma extreme_of_split (l1 l2 : list Q) (v : Q) :
  Forall (λ w, (Qabs w < Qabs v)%Q) l1 →
  Forall (λ w, (Qabs w <= Qabs v)%Q) l2 →
  (m ← py_max (Qabs <$> l1 ++ v :: l2);
   max_abs_idx ← py_index (Qabs <$> l1 ++ v :: l2) m;
   x ← py_getitem (l1 ++ v :: l2) max_abs_idx;
   Ok (Some x)) = Ok (Some v).
Proof.
  intros H1 H2. rewrite fmap_app, fmap_cons.
  rewrite py_max_first by (apply Forall_fmap; assumption). step.
  rewrite py_index_first by (apply Forall_fmap; assumption). step.
  unfold py_getitem. rewrite length_fmap, list_lookup_middle by reflexivity.
  reflexivity.
Qed.

(** ** [get_max_value]: the extreme by magnitude *)

(** Among frames of which one holds a sample there is a first one whose
    sample is largest in magnitude. *)
Lemma first_extreme_exists (row : Row) (frames : list Z) :
  present_samples row frames ≠ [] →
  ∃ before i v after,
    frames = before ++ i :: after
    ∧ sample row i = Some v
    ∧ (∀ j w, j ∈ before → sample row j = Some w → (Qabs w < Qabs v)%Q)
    ∧ (∀ j w, j ∈ after → sample row j = Some w → (Qabs w <= Qabs v)%Q).
Proof.
  induction frames as [|a frames IH]; [intros []; reflexivity |].
  intros Hne.
  destruct (present_samples row frames) as [|x xs] eqn:Hrest.
  - (* the only sample is at [a] *)
    destruct (sample row a) as [w|] eqn:Ha.
    + exists [], a, w, frames. repeat split; try assumption.
      * intros j w' Hj. inversion Hj.
      * intros j w' Hj Hw'. exfalso.
        assert (Hin : w' ∈ present_samples row frames)
          by (apply list_elem_of_omap; eauto).
        rewrite Hrest in Hin. inversion Hin.
    + exfalso. apply Hne. unfold present_samples in *. simpl.
      rewrite Ha. assumption.
  - destruct IH as (before & i & v & after & -> & Hv & Hlt & Hle);
      [discriminate |].
    destruct (sample row a) as [w|] eqn:Ha.
    + destruct (Qlt_le_dec (Qabs w) (Qabs v)) as [Hwv | Hvw].
      * exists (a :: before), i, v, after. repeat split; try assumption.
        intros j w' Hj Hw'. apply elem_of_cons in Hj as [-> | Hj].
        -- congruence.
        -- eauto.
      * exists [], a, w, (before ++ i :: after).
        repeat split; try assumption.
        -- intros j w' Hj. inversion Hj.
        -- intros j w' Hj Hw'. apply Qle_trans with (y := Qabs v); [| assumption].
           apply elem_of_app in Hj as [Hj | Hj].
           ++ apply Qlt_le_weak. eauto.
           ++ apply elem_of_cons in Hj as [-> | Hj].
              ** replace w' with v by congruence. apply Qle_refl.
              ** eauto.
    + exists (a :: before), i, v, after. repeat split; try assumption.
      intros j w' Hj Hw'. apply elem_of_cons in Hj as [-> | Hj].
      * congruence.
      * eauto.
Qed.

Lemma present_samples_Forall (row : Row) (frames : list Z) (P : Q → Prop) :
  (∀ j w, j ∈ frames → sample row j = Some w → P w) →
  Forall P (present_samples row frames).
Proof.
  intros H. apply Forall_forall. intros w Hw.
  apply list_elem_of_omap in Hw as (j & Hj & Hw). eauto.
Qed.

Lemma get_max_value_loop (row : Row) (n : Z) :
  1 <= n →
  get_max_value row (Some (Int n))
    = match present_samples row (seqZ 1 n) with
      | [] => Ok None
      | values =>
          m ← py_max (Qabs <$> values);
          max_abs_idx ← py_index (Qabs <$> values) m;
          v ← py_getitem values max_abs_idx;
          Ok (Some v)
      end.
Proof.
  intros Hn. unfold get_max_value, py_range, fnum_lt.
  rewrite (proj2 (Z.ltb_ge n 1) Hn).
  replace (n + 1 - 1) with n by lia.
  rewrite for_loop_collect. step. cbn [app].
  destruct (present_samples row (seqZ 1 n)); reflexivity.
Qed.

(** The first sample of largest magnitude is what [get_max_value] returns. *)
Lemma get_max_value_first_extreme (row : Row) (n : Z) :
  1 <= n →
  present_samples row (seqZ 1 n) ≠ [] →
  ∃ i v,
    get_max_value row (Some (Int n)) = Ok (Some v)
    ∧ 1 <= i <= n
    ∧ sample row i = Some v
    ∧ (∀ j w, 1 <= j <= n → sample row j = Some w → (Qabs w <= Qabs v)%Q)
    ∧ (∀ j w, 1 <= j < i → sample row j = Some w → (Qabs w < Qabs v)%Q).
Proof.
  intros Hn Hne.
  destruct (first_extreme_exists row (seqZ 1 n) Hne)
    as (before & i & v & after & Hsplit & Hv & Hlt & Hle).
  (* where the frame [i] sits in [1 .. n] *)
  assert (Hpos : i = 1 + Z.of_nat (length before)
                 ∧ Z.of_nat (length before) < n).
  { apply lookup_seqZ. rewrite Hsplit. apply list_lookup_middle. reflexivity. }
  destruct Hpos as [Hi Hbound].
  assert (Hafter : ∀ j, j ∈ after → i < j).
  { intros j Hj. apply list_elem_of_lookup in Hj as [p Hp].
    assert (Hq : seqZ 1 n !! (length before + S p)%nat = Some j).
    { rewrite Hsplit, lookup_app_r by lia.
      replace (length before + S p - length before)%nat with (S p) by lia.
      exact Hp. }
    apply lookup_seqZ in Hq as [-> _]. lia. }
  exists i, v. split; [| split; [| split; [| split]]].
  - rewrite get_max_value_loop by assumption.
    rewrite Hsplit. unfold present_samples. rewrite omap_app. simpl.
    rewrite Hv. fold (present_samples row before) (present_samples row after).
    assert (H1 : Forall (λ w, (Qabs w < Qabs v)%Q) (present_samples row before))
      by (apply present_samples_Forall; assumption).
    assert (H2 : Forall (λ w, (Qabs w <= Qabs v)%Q) (present_samples row after))
      by (apply present_samples_Forall; assumption).
    rewrite <- (extreme_of_split _ _ v H1 H2).
    destruct (present_samples row before); reflexivity.
  - lia.
  - assumption.
  - intros j w Hj Hw.
    assert (Hin : j ∈ seqZ 1 n) by (apply elem_of_seqZ; lia).
    rewrite Hsplit in Hin. apply elem_of_app in Hin as [Hin | Hin].
    + apply Qlt_le_weak. eauto.
    + apply elem_of_cons in Hin as [-> | Hin].
      * replace w with v by congruence. apply Qle_refl.
      * eauto.
  - intros j w Hj Hw.
    assert (Hin : j ∈ seqZ 1 n) by (apply elem_of_seqZ; lia).
    rewrite Hsplit in Hin. apply elem_of_app in Hin as [Hin | Hin].
    + eauto.
    + exfalso. apply elem_of_cons in Hin as [-> | Hin]; [lia |].
      apply Hafter in Hin. lia.
Qed.

(** [get_max_value] never raises on an integer frame count. *)
Lemma get_max_value_ok (row : Row) (n : Z) :
  ∃ v, get_max_value row (Some (Int n)) = Ok v.
Proof.
  destruct (Z_lt_le_dec n 1) as [Hlt | Hge].
  - exists None. unfold get_max_value, fnum_lt.
    rewrite (proj2 (Z.ltb_lt n 1) Hlt). reflexivity.
  - destruct (present_samples row (seqZ 1 n)) as [|x xs] eqn:Hp.
    + exists None. rewrite get_max_value_loop, Hp by assumption. reflexivity.
    + destruct (get_max_value_first_extreme row n Hge) as (i & v & Hv & _).
      * rewrite Hp. discriminate.
      * eauto.
Qed.

(** C3: for a frame count of at least one and a row with a sample present
    among its frames, [get_max_value] returns a sample [v] of the row, sign
    unchanged, at a frame [i] such that no sample of the row is larger in
    magnitude and every sample at an earlier frame is strictly smaller in
    magnitude; on [2, -9, 3] that is [-9] and on [5, -5, 1] it is [5]. *)
Theorem get_max_value_extreme (row : Row) (n : Z) :
  1 <= n →
  (∃ i v, 1 <= i <= n ∧ sample row i = Some v) →
  (∃ i v,
     get_max_value row (Some (Int n)) = Ok (Some v)
     ∧ 1 <= i <= n
     ∧ sample row i = Some v
     ∧ (∀ j w, 1 <= j <= n → sample row j = Some w → (Qabs w <= Qabs v)%Q)
     ∧ (∀ j w, 1 <= j < i → sample row j = Some w → (Qabs w < Qabs v)%Q))
  ∧ get_max_value
      (samples_row 3 [Some 2%Q; Some (-9)%Q; Some 3%Q]) (Some (Int 3))
    = Ok (Some (-9)%Q)
  ∧ get_max_value
      (samples_row 3 [Some 5%Q; Some (-5)%Q; Some 1%Q]) (Some (Int 3))
    = Ok (Some 5%Q).
Proof.
  intros Hn (i0 & v0 & Hi0 & Hv0).
  split; [| split; reflexivity].
  apply get_max_value_first_extreme; [assumption |].
  intros Hnil.
  assert (Hin : v0 ∈ present_samples row (seqZ 1 n)).
  { apply list_elem_of_omap. exists i0. split; [| assumption].
    apply elem_of_seqZ. lia. }
  rewrite Hnil in Hin. inversion Hin.
Qed.

Lemma get_max_value_extreme_witness :
  1 <= 3
  ∧ (∃ i v, 1 <= i <= 3
       ∧ sample (samples_row 3 [Some 5%Q; Some (-5)%Q; Some 1%Q]) i = Some v)
  ∧ (∃ i v,
       get_max_value (samples_row 3 [Some 5%Q; Some (-5)%Q; Some 1%Q])
         (Some (Int 3)) = Ok (Some v)
       ∧ 1 <= i <= 3
       ∧ sample (samples_row 3 [Some 5%Q; Some (-5)%Q; Some 1%Q]) i = Some v
       ∧ (∀ j w, 1 <= j <= 3 →
            sample (samples_row 3 [Some 5%Q; Some (-5)%Q; Some 1%Q]) j = Some w →
            (Qabs w <= Qabs v)%Q)
       ∧ (∀ j w, 1 <= j < i →
            sample (samples_row 3 [Some 5%Q; Some (-5)%Q; Some 1%Q]) j = Some w →
            (Qabs w < Qabs v)%Q)).
Proof.
  assert (Hex : ∃ i v, 1 <= i <= 3
    ∧ sample (samples_row 3 [Some 5%Q; Some (-5)%Q; Some 1%Q]) i = Some v).
  { exists 2, (-5)%Q. split; [lia | reflexivity]. }
  split; [lia |]. split; [exact Hex |].
  apply (get_max_value_extreme
           (samples_row 3 [Some 5%Q; Some (-5)%Q; Some 1%Q]) 3); [lia | exact Hex].
Defined.

(** ** Where an exception can come from *)

Lemma extract_event_value (row : Row) (frames : option fnum)
    (new_row : new_row_t) (ev : string * string) :
  extract_event row frames new_row ev
    = (value ← event_value row frames ev;
       Ok (<[at_name ev.1 := value]> new_row)).
Proof.
  unfold extract_event, event_value.
  destruct (notna _ && notna _ && notna _ && truthy _); [| reflexivity].
  destruct frames as [f|]; [| reflexivity].
  destruct (time_to_frame _ _ _ f) as [frame_num|e]; [| reflexivity].
  step. destruct (get_value_at_frame row frame_num); reflexivity.
Qed.

Lemma time_to_frame_with_undefined
    (div : pyfloat → pyfloat → result pyfloat)
    (event_time time_start time_end : cell) (n : Z) :
  event_time = None ∨ time_start = None ∨ time_end = None ∨ n <= 1 →
  time_to_frame_with div event_time time_start time_end (Int n) = Ok None.
Proof.
  unfold time_to_frame_with.
  intros [-> | [-> | [-> | Hn]]].
  - reflexivity.
  - destruct event_time; reflexivity.
  - destruct event_time, time_start; reflexivity.
  - destruct event_time, time_start, time_end; try reflexivity.
    simpl. apply Z.leb_le in Hn. rewrite Hn. reflexivity.
Qed.

(** On an integer frame count [time_to_frame] raises only from the
    interpolation formula. *)
Lemma time_to_frame_raise_inside (event_time time_start time_end : cell)
    (n : Z) (e : exn) :
  time_to_frame event_time time_start time_end (Int n) = Raise e →
  ∃ t ts te,
    event_time = Some t ∧ time_start = Some ts ∧ time_end = Some te
    ∧ 1 < n ∧ (ts <= t)%Q ∧ (t <= te)%Q ∧ ¬ (te == ts)%Q.
Proof.
  unfold time_to_frame, time_to_frame_with.
  destruct event_time as [t|], time_start as [ts|], time_end as [te|];
    try discriminate.
  destruct (fnum_le (Int n) 1) eqn:Hn; [discriminate |].
  apply fnum_le_int in Hn.
  guards; try discriminate.
  intros _. exists t, ts, te. repeat split; assumption.
Qed.

Lemma get_value_at_frame_ok (row : Row) (frame_num : option fnum) :
  ∃ v, get_value_at_frame row frame_num = Ok v.
Proof.
  destruct frame_num as [[|i]|]; simpl; eauto.
  destruct (i <? 1); eauto.
  unfold in_index, row_getitem.
  destruct (row_values row !! i) as [[v|]|]; simpl; eauto.
Qed.

(** On an integer frame count the value of an event raises exactly what
    [time_to_frame] raises on its timestamps, and then the event reaches
    the interpolation. *)
Lemma event_value_raise_int (row : Row) (ev : string * string) (n : Z)
    (e : exn) :
  event_value row (Some (Int n)) ev = Raise e →
  reaches_interpolation row (Some (Int n)) ev
  ∧ time_to_frame (row_get row ev.2) (row_time_start row) (row_time_end row)
      (Int n) = Raise e.
Proof.
  unfold event_value.
  destruct (notna _ && notna _ && notna _ && truthy _); [| discriminate].
  destruct (time_to_frame _ _ _ (Int n)) as [frame_num|e'] eqn:Hframe.
  - step. destruct (get_value_at_frame_ok row frame_num) as [v ->].
    discriminate.
  - step. intros [= <-]. split; [| reflexivity].
    destruct (time_to_frame_raise_inside _ _ _ _ _ Hframe)
      as (t & ts & te & Ht & Hts & Hte & Hn & Hlo & Hhi & Hne).
    exists t, ts, te, n. repeat split; assumption.
Qed.

Lemma event_value_no_frames (row : Row) (ev : string * string) :
  event_value row None ev = Ok None.
Proof.
  unfold event_value. rewrite andb_false_r. reflexivity.
Qed.

Lemma for_loop_extract_raise_event (row : Row) (frames : option fnum)
    (evs : list (string * string)) (new_row : new_row_t) (e : exn) :
  for_loop (extract_event row frames) new_row evs = Raise e →
  ∃ ev, ev ∈ evs ∧ event_value row frames ev = Raise e.
Proof.
  revert new_row. induction evs as [|ev evs IH]; intros new_row; simpl;
    [discriminate |].
  rewrite extract_event_value.
  destruct (event_value row frames ev) as [v|e'] eqn:Hv.
  - step. intros Hrest. destruct (IH _ Hrest) as (ev' & Hin & Hev').
    exists ev'. split; [apply elem_of_cons; auto | assumption].
  - step. intros [= <-]. exists ev.
    split; [apply elem_of_cons; auto | assumption].
Qed.

(** The extraction once the frame count has been converted. *)
Lemma extract_event_samples_frames (row : Row)
    (available_events : list (string * string)) (frames : option fnum) :
  convert_frames (row_frames row) = Ok frames →
  extract_event_samples row available_events
    = (new_row ← for_loop (extract_event row frames) ∅ available_events;
       max_value ← (if truthy frames then get_max_value row frames
                    else Ok None);
       Ok (<["@max"%string := max_value]> new_row)).
Proof. intros Hf. unfold extract_event_samples. rewrite Hf. reflexivity. Qed.

(** The conversion of the frame count raises on an infinity only. *)
Lemma convert_frames_raise (c : frames_cell) (e : exn) :
  convert_frames c = Raise e ↔ (∃ b, c = CellFloat (Inf b)) ∧ e = OverflowError.
Proof.
  split.
  - destruct c as [|n|[q|b|]|[n|]]; try discriminate.
    intros [= <-]. eauto.
  - intros [[b ->] ->]. reflexivity.
Qed.

(** With an integer frame count, or none, the extraction of a row raises
    only what the value of one of its events raises in the interpolation. *)
Lemma extract_event_samples_raise_inside (row : Row)
    (available_events : list (string * string)) (frames : option fnum)
    (e : exn) :
  convert_frames (row_frames row) = Ok frames → frames ≠ Some NaN →
  extract_event_samples row available_events = Raise e →
  ∃ ev, ev ∈ available_events ∧ reaches_interpolation row frames ev
        ∧ event_value row frames ev = Raise e.
Proof.
  intros Hf Hnan. rewrite (extract_event_samples_frames _ _ _ Hf).
  destruct (for_loop (extract_event row frames) ∅ available_events)
    as [m|e'] eqn:Hm.
  - step. destruct frames as [[|n]|]; [congruence | |].
    + destruct (truthy (Some (Int n))); [| discriminate].
      destruct (get_max_value_ok row n) as [v ->]. discriminate.
    + discriminate.
  - step. intros [= ->].
    destruct (for_loop_extract_raise_event _ _ _ _ _ Hm) as (ev & Hin & Hev).
    exists ev. split; [assumption |]. split; [| assumption].
    destruct frames as [[|n]|]; [congruence | |].
    + apply (event_value_raise_int row ev n e Hev).
    + rewrite event_value_no_frames in Hev. discriminate.
Qed.

Lemma extract_event_samples_ok_outside (row : Row)
    (available_events : list (string * string)) (frames : option fnum) :
  convert_frames (row_frames row) = Ok frames → frames ≠ Some NaN →
  (∀ ev, ev ∈ available_events → ¬ reaches_interpolation row frames ev) →
  ∃ out, extract_event_samples row available_events = Ok out.
Proof.
  intros Hf Hnan Hout.
  destruct (extract_event_samples row available_events) as [out|e] eqn:Hx;
    [eauto |].
  destruct (extract_event_samples_raise_inside _ _ _ _ Hf Hnan Hx)
    as (ev & Hin & Hreach & _).
  exfalso. exact (Hout ev Hin Hreach).
Qed.

Lemma finite_window_width (row : Row) (ts te : Q) :
  finite_window row = true →
  row_time_start row = Some ts → row_time_end row = Some te → (ts < te)%Q →
  ∃ d, fsub (Fin te) (Fin ts) = Fin d ∧ ¬ (d == 0)%Q.
Proof.
  unfold finite_window. intros Hfin Hts Hte Hlt.
  rewrite Hts, Hte, (proj2 (Qltb_true ts te) Hlt) in Hfin.
  destruct (fsub (Fin te) (Fin ts)) as [d| |]; try discriminate.
  exists d. split; [reflexivity |].
  apply Qeqb_false, negb_true_iff. assumption.
Qed.

(** On a window of finite width, and with at most [2^53] frames, the
    value of an event is computed without an exception. *)
Lemma event_value_finite_window (row : Row) (ev : string * string) (n : Z) :
  finite_window row = true → n <= 2 ^ 53 →
  ∃ v, event_value row (Some (Int n)) ev = Ok v.
Proof.
  intros Hfin Hn.
  destruct (event_value row (Some (Int n)) ev) as [v|e] eqn:Hv; [eauto |].
  exfalso.
  destruct (event_value_raise_int row ev n e Hv) as [Hreach Hraise].
  destruct Hreach as (t & ts & te & n' & Ht & Hts & Hte & [= <-] & Hn1 & Hlo
                      & Hhi & Hne).
  assert (Hlt : (ts < te)%Q).
  { apply Qle_lteq in Hlo as Hlo'. apply Qnot_le_lt. intros Hle.
    apply Hne. apply Qle_antisym; [assumption |].
    eapply Qle_trans; eassumption. }
  destruct (finite_window_width row ts te Hfin Hts Hte Hlt) as (d & Hd & Hnz).
  destruct (time_to_frame_finite_window t ts te d n Hlt ltac:(lia) Hd Hnz)
    as (k & Hk & _).
  rewrite Ht, Hts, Hte in Hraise. congruence.
Qed.

Lemma extract_event_samples_finite_window (row : Row)
    (available_events : list (string * string)) (frames : option fnum) :
  convert_frames (row_frames row) = Ok frames → frames ≠ Some NaN →
  (∀ n, frames = Some (Int n) → n <= 2 ^ 53) →
  finite_window row = true →
  ∃ out, extract_event_samples row available_events = Ok out.
Proof.
  intros Hf Hnan Hn Hfin.
  destruct (extract_event_samples row available_events) as [out|e] eqn:Hx;
    [eauto |].
  exfalso.
  destruct (extract_event_samples_raise_inside _ _ _ _ Hf Hnan Hx)
    as (ev & _ & Hreach & Hev).
  destruct Hreach as (_ & _ & _ & n & _ & _ & _ & -> & _).
  destruct (event_value_finite_window row ev n Hfin (Hn n eq_refl)) as [v Hv].
  congruence.
Qed.

(** An event whose timestamp or window bound is missing, or whose row has
    no frame count or at most one frame, comes out undefined. *)
Lemma extract_event_undefined (row : Row) (frames : option fnum)
    (new_row : new_row_t) (ev : string * string) :
  row_get row ev.2 = None ∨ row_time_start row = None
    ∨ row_time_end row = None ∨ frames = None
    ∨ (∃ n, frames = Some (Int n) ∧ n <= 1) →
  extract_event row frames new_row ev
    = Ok (<[at_name ev.1 := None]> new_row).
Proof.
  unfold extract_event.
  intros [-> | [-> | [-> | [-> | (n & -> & Hn)]]]].
  - reflexivity.
  - rewrite andb_false_r. reflexivity.
  - rewrite andb_false_r. reflexivity.
  - rewrite andb_false_r. reflexivity.
  - destruct (notna _ && notna _ && notna _ && truthy _); [| reflexivity].
    destruct (row_get row ev.2) as [t|], (row_time_start row) as [ts|],
      (row_time_end row) as [te|];
      unfold time_to_frame, time_to_frame_with, fnum_le;
      rewrite ?(proj2 (Z.leb_le n 1) Hn); reflexivity.
Qed.

Lemma for_loop_extract_undefined (row : Row)
    (available_events : list (string * string)) (new_row : new_row_t) (n : Z) :
  n <= 1 →
  for_loop (extract_event row (Some (Int n))) new_row available_events
    = Ok (undefined_events new_row available_events).
Proof.
  intros Hn. revert new_row.
  induction available_events as [|ev evs IH]; intros new_row; simpl;
    [reflexivity |].
  rewrite extract_event_undefined by eauto 10. step. apply IH.
Qed.

(** An event that [time_to_frame] maps to a frame is given the sample at
    that frame. *)
Lemma extract_event_at_frame (row : Row) (new_row : new_row_t)
    (ev : string * string) (n i : Z) :
  time_to_frame (row_get row ev.2) (row_time_start row) (row_time_end row)
    (Int n) = Ok (Some (Int i)) →
  extract_event row (Some (Int n)) new_row ev
    = Ok (<[at_name ev.1 := sample row i]> new_row).
Proof.
  intros Hframe. unfold extract_event.
  destruct (time_to_frame_frame _ _ _ _ _ Hframe) as (k & [= <-] & Hk).
  destruct (row_get row ev.2) as [t|]; [| discriminate].
  destruct (row_time_start row) as [ts|]; [| discriminate].
  destruct (row_time_end row) as [te|]; [| discriminate].
  assert (Htruthy : truthy (Some (Int n)) = true).
  { simpl. apply negb_true_iff, Z.eqb_neq. lia. }
  rewrite Htruthy, Hframe. cbn [notna andb]. step.
  rewrite get_value_at_frame_sample by lia. reflexivity.
Qed.

(** ** Data-quality problems *)

(** C8, as stated, fails for the degenerate window: on the window [5, 5]
    the footstrike at [5] is given the sample of frame 1, so the output has
    no undefined field.  And a row whose samples are all missing still
    raises when the width of its window overflows: from [-2^1023] to
    [2^1023] the ratio is NaN and [round] raises [ValueError]. *)
Lemma data_quality_counterexample :
  row_time_start degenerate_row = row_time_end degenerate_row
  ∧ extract_event_samples degenerate_row footstrike
    = Ok (<["@max"%string := Some 30%Q]>
           (<["@footstrike"%string := Some 10%Q]> ∅))
  ∧ (<["@max"%string := Some 30%Q]>
      (<["@footstrike"%string := Some 10%Q]> ∅) : new_row_t)
      !! "@footstrike"%string ≠ Some None
  ∧ row_values wide_row = ∅
  ∧ extract_event_samples wide_row footstrike = Raise ValueError.
Proof.
  split; [reflexivity |]. split; [reflexivity |].
  split; [vm_compute; discriminate |].
  split; [reflexivity |]. vm_compute. reflexivity.
Qed.

(** C8, amended: none of the data-quality problems makes an operation
    raise.  [time_to_frame] returns [None] on a missing input and on a
    frame count of at most one, and a frame on a degenerate window,
    whatever the division would do; [get_value_at_frame] and, on an
    integer frame count, [get_max_value] never raise; and on a row whose
    frame count is an integer or [None] the extraction raises only what
    the interpolation raises for an event inside a window that is not
    degenerate, so it returns when no event is in that case, and it
    returns as well when the window has a finite float width and the frame
    count is at most [2^53].  An event with
    a missing timestamp or window bound, or on a row with at most one
    frame, comes out undefined, and so does an event mapped to a frame
    whose sample is missing; a degenerate window does not come out
    undefined: the event is given the sample of frame 1, or of the last
    frame when the event is past [time_end]. *)
Theorem data_quality_never_raises (row : Row)
    (available_events : list (string * string)) (frames : option fnum) :
  convert_frames (row_frames row) = Ok frames → frames ≠ Some NaN →
  (∀ div event_time time_start time_end n,
     event_time = None ∨ time_start = None ∨ time_end = None ∨ n <= 1 →
     time_to_frame_with div event_time time_start time_end (Int n) = Ok None)
  ∧ (∀ div t ts te n,
       (te == ts)%Q → 1 < n →
       time_to_frame_with div (Some t) (Some ts) (Some te) (Int n)
         = Ok (Some (Int (if Qltb te t then n else 1))))
  ∧ (∀ frame_num, ∃ v, get_value_at_frame row frame_num = Ok v)
  ∧ (∀ n, ∃ v, get_max_value row (Some (Int n)) = Ok v)
  ∧ (∀ e, extract_event_samples row available_events = Raise e →
       ∃ ev, ev ∈ available_events ∧ reaches_interpolation row frames ev
             ∧ event_value row frames ev = Raise e)
  ∧ ((∀ ev, ev ∈ available_events → ¬ reaches_interpolation row frames ev) →
     ∃ out, extract_event_samples row available_events = Ok out)
  ∧ ((∀ n, frames = Some (Int n) → n <= 2 ^ 53) →
     finite_window row = true →
     ∃ out, extract_event_samples row available_events = Ok out)
  ∧ (∀ new_row ev,
       row_get row ev.2 = None ∨ row_time_start row = None
         ∨ row_time_end row = None ∨ frames = None
         ∨ (∃ n, frames = Some (Int n) ∧ n <= 1) →
       extract_event row frames new_row ev
         = Ok (<[at_name ev.1 := None]> new_row))
  ∧ (∀ new_row ev n i,
       frames = Some (Int n) →
       time_to_frame (row_get row ev.2) (row_time_start row)
         (row_time_end row) (Int n) = Ok (Some (Int i)) →
       sample row i = None →
       extract_event row frames new_row ev
         = Ok (<[at_name ev.1 := None]> new_row))
  ∧ (∀ new_row ev t ts te n,
       row_get row ev.2 = Some t → row_time_start row = Some ts →
       row_time_end row = Some te → frames = Some (Int n) →
       (te == ts)%Q → 1 < n →
       extract_event row frames new_row ev
         = Ok (<[at_name ev.1 := sample row (if Qltb te t then n else 1)]>
                new_row)).
Proof.
  intros Hf Hnan. repeat split.
  - intros. apply time_to_frame_with_undefined. assumption.
  - intros. apply time_to_frame_with_equal_bounds; assumption.
  - intros. apply get_value_at_frame_ok.
  - intros. apply get_max_value_ok.
  - intros e He.
    apply (extract_event_samples_raise_inside _ _ _ _ Hf Hnan He).
  - apply extract_event_samples_ok_outside; assumption.
  - apply extract_event_samples_finite_window; assumption.
  - intros. apply extract_event_undefined. assumption.
  - intros new_row ev n i -> Hframe Hmissing.
    rewrite <- Hmissing. apply extract_event_at_frame. assumption.
  - intros new_row ev t ts te n Ht Hts Hte -> Hdeg Hn.
    apply extract_event_at_frame. rewrite Ht, Hts, Hte.
    apply time_to_frame_equal_bounds; assumption.
Qed.

Lemma degenerate_row_outside :
  ∀ ev, ev ∈ footstrike →
    ¬ reaches_interpolation degenerate_row (Some (Int 3)) ev.
Proof.
  intros ev Hin (t & ts & te & n & _ & Hts & Hte & _ & _ & _ & _ & Hne).
  injection Hts as <-. injection Hte as <-. apply Hne. reflexivity.
Qed.

Lemma data_quality_never_raises_witness :
  convert_frames (row_frames degenerate_row) = Ok (Some (Int 3))
  ∧ Some (Int 3) ≠ Some NaN
  ∧ (∃ out, extract_event_samples degenerate_row footstrike = Ok out)
  ∧ finite_window (row_10_20_30 (1 # 2)) = true
  ∧ (∃ out,
       extract_event_samples (row_10_20_30 (1 # 2)) footstrike = Ok out)
  ∧ extract_event degenerate_row (Some (Int 3)) ∅
      ("footstrike", "event_footstrike_time")%string
    = Ok (<["@footstrike"%string := Some 10%Q]> ∅)
  ∧ extract_event (samples_row 3 []) (Some (Int 3)) ∅
      ("footstrike", "event_footstrike_time")%string
    = Ok (<["@footstrike"%string := None]> ∅).
Proof.
  split; [reflexivity |]. split; [discriminate |].
  assert (Hn : ∀ n, Some (Int 3) = Some (Int n) → n <= 2 ^ 53).
  { intros n [= <-]. lia. }
  destruct (data_quality_never_raises degenerate_row footstrike
              (Some (Int 3)) eq_refl ltac:(discriminate))
    as (_ & _ & _ & _ & _ & Houtside & _ & _ & _ & Hdegenerate).
  destruct (data_quality_never_raises (row_10_20_30 (1 # 2)) footstrike
              (Some (Int 3)) eq_refl ltac:(discriminate))
    as (_ & _ & _ & _ & _ & _ & Hfinite & _).
  destruct (data_quality_never_raises (samples_row 3 []) footstrike
              (Some (Int 3)) eq_refl ltac:(discriminate))
    as (_ & _ & _ & _ & _ & _ & _ & Hundefined & _).
  split; [exact (Houtside degenerate_row_outside) |].
  split; [vm_compute; reflexivity |].
  split; [apply (Hfinite Hn); vm_compute; reflexivity |].
  split.
  - apply (Hdegenerate ∅ ("footstrike", "event_footstrike_time")%string
             5%Q 5%Q 5%Q 3);
      [reflexivity | reflexivity | reflexivity | reflexivity | reflexivity
      | lia].
  - apply Hundefined. left. reflexivity.
Defined.

(** ** Rows whose frame count disagrees with their samples *)

Lemma present_samples_absent (row : Row) (frames : list Z) :
  (∀ i, i ∈ frames → row_values row !! i = None) →
  present_samples row frames = [].
Proof.
  intros Habs. induction frames as [|a frames IH]; [reflexivity |].
  unfold present_samples in *. simpl. unfold sample at 1.
  rewrite Habs by (apply elem_of_cons; eauto). simpl.
  apply IH. intros i Hi. apply Habs, elem_of_cons. eauto.
Qed.

(** Frames past the last sample column add nothing to the scan. *)
Lemma present_samples_prefix (row : Row) (k n : Z) :
  0 <= k <= n →
  (∀ i, k < i → row_values row !! i = None) →
  present_samples row (seqZ 1 n) = present_samples row (seqZ 1 k).
Proof.
  intros Hk Habs.
  replace n with (k + (n - k)) by lia.
  rewrite seqZ_app by lia. unfold present_samples. rewrite omap_app.
  fold (present_samples row (seqZ (1 + k) (n - k))).
  rewrite present_samples_absent, app_nil_r; [reflexivity |].
  intros i Hi. apply elem_of_seqZ in Hi. apply Habs. lia.
Qed.

Lemma get_max_value_prefix (row : Row) (k n : Z) :
  0 <= k <= n →
  (∀ i, k < i → row_values row !! i = None) →
  get_max_value row (Some (Int n)) = get_max_value row (Some (Int k)).
Proof.
  intros Hk Habs.
  destruct (Z_lt_le_dec n 1) as [Hn | Hn].
  - replace k with n by lia. reflexivity.
  - rewrite (get_max_value_loop row n Hn).
    rewrite (present_samples_prefix row k n Hk Habs).
    destruct (Z_lt_le_dec k 1) as [Hk1 | Hk1].
    + replace k with 0 by lia. reflexivity.
    + rewrite (get_max_value_loop row k Hk1). reflexivity.
Qed.

(** C1, as stated, fails: with five frames declared and three samples
    supplied the extraction returns, the footstrike at frame 5 undefined and
    the extreme taken over the three samples; with no frame declared and
    three samples supplied it returns too, every field undefined. *)
Lemma integrity_error_counterexample :
  extract_event_samples short_row footstrike
    = Ok (<["@max"%string := Some 30%Q]> (<["@footstrike"%string := None]> ∅))
  ∧ ¬ raises (extract_event_samples short_row footstrike)
  ∧ extract_event_samples zero_row footstrike
    = Ok (<["@max"%string := None]> (<["@footstrike"%string := None]> ∅))
  ∧ ¬ raises (extract_event_samples zero_row footstrike).
Proof.
  assert (H1 : extract_event_samples short_row footstrike
    = Ok (<["@max"%string := Some 30%Q]> (<["@footstrike"%string := None]> ∅)))
    by (vm_compute; reflexivity).
  assert (H2 : extract_event_samples zero_row footstrike
    = Ok (<["@max"%string := None]> (<["@footstrike"%string := None]> ∅)))
    by (vm_compute; reflexivity).
  split; [exact H1 |]. split; [rewrite H1; intros [e He]; discriminate |].
  split; [exact H2 |]. rewrite H2; intros [e He]; discriminate.
Qed.

(** C1, amended: a declared frame count that disagrees with the samples
    supplied is not signalled as an error.  Whatever integer frame count a
    row declares, an exception of the extraction is one that
    [time_to_frame] raises on the timestamps of an event, which does not
    look at the samples; a frame without a sample column comes out
    undefined, as a value and as the field of an event mapped to it; when
    the declared count exceeds the sample columns supplied, the extreme is
    the one of the samples supplied; and with a zero or negative frame
    count the extraction returns with every output field undefined. *)
Theorem extraction_without_integrity_error (row : Row)
    (available_events : list (string * string)) (n : Z) :
  convert_frames (row_frames row) = Ok (Some (Int n)) →
  (∀ e, extract_event_samples row available_events = Raise e →
     ∃ ev, ev ∈ available_events
           ∧ time_to_frame (row_get row ev.2) (row_time_start row)
               (row_time_end row) (Int n) = Raise e)
  ∧ (∀ i, row_values row !! i = None →
       get_value_at_frame row (Some (Int i)) = Ok None)
  ∧ (∀ new_row ev i,
       time_to_frame (row_get row ev.2) (row_time_start row)
         (row_time_end row) (Int n) = Ok (Some (Int i)) →
       row_values row !! i = None →
       extract_event row (Some (Int n)) new_row ev
         = Ok (<[at_name ev.1 := None]> new_row))
  ∧ (∀ k, 0 <= k <= n → (∀ i, k < i → row_values row !! i = None) →
       get_max_value row (Some (Int n)) = get_max_value row (Some (Int k)))
  ∧ (n <= 0 →
     extract_event_samples row available_events
       = Ok (<["@max"%string := None]> (undefined_events ∅ available_events))).
Proof.
  intros Hf. split; [| split; [| split; [| split]]].
  - intros e He.
    destruct (extract_event_samples_raise_inside row available_events
                (Some (Int n)) e Hf ltac:(discriminate) He)
      as (ev & Hin & _ & Hev).
    exists ev. split; [assumption |].
    apply (event_value_raise_int row ev n e Hev).
  - intros i Hi. unfold get_value_at_frame, in_index, fnum_lt.
    rewrite Hi. destruct (i <? 1); reflexivity.
  - intros new_row ev i Hframe Hi.
    rewrite (extract_event_at_frame row new_row ev n i Hframe).
    unfold sample. rewrite Hi. reflexivity.
  - intros k Hk Habs. apply get_max_value_prefix; assumption.
  - intros Hn. rewrite (extract_event_samples_frames _ _ _ Hf).
    rewrite (for_loop_extract_undefined row available_events ∅ n) by lia.
    step.
    destruct (truthy (Some (Int n))); [| reflexivity].
    unfold get_max_value, fnum_lt.
    rewrite (proj2 (Z.ltb_lt n 1)) by lia. reflexivity.
Qed.

Lemma extraction_without_integrity_error_witness :
  convert_frames (row_frames short_row) = Ok (Some (Int 5))
  ∧ get_value_at_frame short_row (Some (Int 5)) = Ok None
  ∧ extract_event short_row (Some (Int 5)) ∅
      ("footstrike", "event_footstrike_time")%string
    = Ok (<["@footstrike"%string := None]> ∅)
  ∧ get_max_value short_row (Some (Int 5))
    = get_max_value short_row (Some (Int 3))
  ∧ extract_event_samples zero_row footstrike
    = Ok (<["@max"%string := None]> (undefined_events ∅ footstrike)).
Proof.
  split; [reflexivity |].
  split; [| split; [| split]].
  - apply (extraction_without_integrity_error short_row footstrike 5 eq_refl).
    reflexivity.
  - apply (extraction_without_integrity_error short_row footstrike 5 eq_refl)
      with (i := 5); [vm_compute |]; reflexivity.
  - apply (extraction_without_integrity_error short_row footstrike 5 eq_refl).
    + lia.
    + intros i Hi. unfold short_row, footstrike_row, value_columns. simpl.
      rewrite !lookup_insert_ne by lia. apply lookup_empty.
  - apply (extraction_without_integrity_error zero_row footstrike 0 eq_refl).
    lia.
Defined.

(** ** The loop body carries no state from one row to the next *)

Lemma load_row_at (h : store) (row : loc) (r : Row) :
  h !! row = Some (ObjRow r) → load_row h row = Ok r.
Proof. intros Hrow. unfold load_row. rewrite Hrow. reflexivity. Qed.

Lemma setitem_at (h : store) (new_row : loc) (s : new_row_t) (key : string)
    (value : option Q) :
  h !! new_row = Some (ObjSeries s) →
  setitem h new_row key value
    = Ok (<[new_row := ObjSeries (<[key := value]> s)]> h).
Proof. intros Hnew. unfold setitem. rewrite Hnew. reflexivity. Qed.

(** One iteration over the events writes into the output row what
    [extract_event] computes from the row, and nowhere else. *)
Lemma store_extract_event_pure (row new_row : loc) (r : Row)
    (frames : option fnum) (h : store) (s : new_row_t)
    (ev : string * string) :
  h !! row = Some (ObjRow r) → h !! new_row = Some (ObjSeries s) →
  store_extract_event row new_row (row_time_start r) (row_time_end r) frames
    h ev
  = (s' ← extract_event r frames s ev; Ok (<[new_row := ObjSeries s']> h)).
Proof.
  intros Hrow Hnew. unfold store_extract_event, extract_event.
  rewrite (load_row_at h row r Hrow). step.
  destruct (notna _ && notna _ && notna _ && truthy _);
    [| apply setitem_at; assumption].
  destruct frames as [f|]; [| apply setitem_at; assumption].
  destruct (time_to_frame _ _ _ f) as [frame_num|e]; [| reflexivity].
  step. destruct (get_value_at_frame r frame_num) as [v|e]; [| reflexivity].
  step. apply setitem_at. assumption.
Qed.

Lemma for_loop_store_extract (row new_row : loc) (r : Row)
    (frames : option fnum) (evs : list (string * string)) (h : store)
    (s : new_row_t) :
  row ≠ new_row →
  h !! row = Some (ObjRow r) → h !! new_row = Some (ObjSeries s) →
  for_loop (store_extract_event row new_row (row_time_start r)
              (row_time_end r) frames) h evs
  = (s' ← for_loop (extract_event r frames) s evs;
     Ok (<[new_row := ObjSeries s']> h)).
Proof.
  intros Hne. revert h s. induction evs as [|ev evs IH]; intros h s Hrow Hnew.
  - simpl. rewrite insert_id by assumption. reflexivity.
  - simpl. rewrite (store_extract_event_pure row new_row r frames h s ev)
      by assumption.
    destruct (extract_event r frames s ev) as [s'|e]; [| reflexivity].
    step. rewrite (IH (<[new_row := ObjSeries s']> h) s').
    + destruct (for_loop (extract_event r frames) s' evs); [| reflexivity].
      step. rewrite insert_insert_eq. reflexivity.
    + rewrite lookup_insert_ne by congruence. assumption.
    + apply lookup_insert_eq.
Qed.

Lemma fresh_not_bound (h : store) (l : loc) (o : obj) :
  h !! l = Some o → l ≠ fresh (dom h).
Proof.
  intros Hl ->. apply (is_fresh (dom h)). apply (elem_of_dom_2 h _ o Hl).
Qed.

(** The loop body on the store is the extraction of the row read through
    [row]: the output goes to a new object, which is appended to the list,
    and nothing else is written. *)
Lemma loop_body_extract (available_events : list (string * string))
    (h : store) (row summarized_rows : loc) (r : Row) (items : list loc) :
  h !! row = Some (ObjRow r) →
  h !! summarized_rows = Some (ObjList items) →
  loop_body available_events row summarized_rows h
  = (out ← extract_event_samples r available_events;
     Ok (<[summarized_rows := ObjList (items ++ [fresh (dom h)])]>
           (<[fresh (dom h) := ObjSeries out]> h))).
Proof.
  intros Hrow Hacc. unfold loop_body, extract_event_samples.
  pose proof (fresh_not_bound h row _ Hrow) as Hnr.
  pose proof (fresh_not_bound h summarized_rows _ Hacc) as Hna.
  set (new_row := fresh (dom h)) in *.
  rewrite (load_row_at h row r Hrow). step.
  rewrite (load_row_at (<[new_row := ObjSeries ∅]> h) row r)
    by (rewrite lookup_insert_ne by congruence; assumption).
  step.
  destruct (convert_frames (row_frames r)) as [frames|e]; [| reflexivity].
  step.
  rewrite (for_loop_store_extract row new_row r frames available_events
             (<[new_row := ObjSeries ∅]> h) ∅ Hnr)
    by (rewrite ?lookup_insert_eq, ?lookup_insert_ne by congruence;
        try assumption; reflexivity).
  destruct (for_loop (extract_event r frames) ∅ available_events)
    as [s|e]; [| reflexivity].
  step. rewrite insert_insert_eq.
  rewrite (load_row_at (<[new_row := ObjSeries s]> h) row r)
    by (rewrite lookup_insert_ne by congruence; assumption).
  step.
  destruct (if truthy frames then get_max_value r frames else Ok None)
    as [max_value|e] eqn:Hmax.
  - step. rewrite (setitem_at _ new_row s) by apply lookup_insert_eq.
    step. rewrite insert_insert_eq. unfold append.
    rewrite lookup_insert_ne by congruence. rewrite Hacc. reflexivity.
  - reflexivity.
Qed.



(** * Further properties *)

(** ** [time_to_frame]: range, order and the clamp *)

(** X16: for an integer frame count, whenever [time_to_frame] returns a
    frame, the frame is an integer between 1 and the frame count; this
    holds whatever the float division does, so it does not depend on the
    arithmetic. *)
Theorem time_to_frame_in_range (div : pyfloat → pyfloat → result pyfloat)
    (event_time time_start time_end : cell) (n : Z) (f : fnum) :
  time_to_frame_with div event_time time_start time_end (Int n) = Ok (Some f) →
  ∃ k, f = Int k ∧ 1 <= k <= n.
Proof. apply time_to_frame_with_frame. Qed.

Lemma time_to_frame_in_range_witness :
  time_to_frame_with py_div (Some (2 # 3)%Q) (Some 0%Q) (Some 1%Q) (Int 10)
    = Ok (Some (Int 7))
  ∧ ∃ k, Int 7 = Int k ∧ 1 <= k <= 10.
Proof.
  split; [vm_compute; reflexivity |].
  apply (time_to_frame_in_range py_div
           (Some (2 # 3)%Q) (Some 0%Q) (Some 1%Q) 10 (Int 7)).
  vm_compute. reflexivity.
Defined.

(** On a window that is degenerate or inverted only the guards decide. *)
Lemma time_to_frame_no_window (t ts te : Q) (n : Z) :
  1 < n → (te <= ts)%Q →
  time_to_frame (Some t) (Some ts) (Some te) (Int n)
    = Ok (Some (Int (if Qltb t ts then 1 else if Qltb te t then n else 1))).
Proof.
  intros Hn Hle. unfold time_to_frame, time_to_frame_with.
  rewrite (proj2 (fnum_le_int n 1) Hn).
  destruct (Qltb t ts) eqn:E1; [reflexivity |].
  destruct (Qltb te t) eqn:E2; [reflexivity |].
  apply Qltb_false in E1, E2.
  rewrite (proj2 (Qeqb_true te ts)); [reflexivity |].
  apply Qle_antisym; [assumption |]. eapply Qle_trans; eassumption.
Qed.

(** X1: for a frame count above one and at most [2^53], and a window
    whose float width, when [time_start < time_end], is finite and not
    zero, [time_to_frame] returns a frame for every event time and is
    monotone: a later event is never mapped to an earlier frame.  This
    holds on ordered, degenerate and inverted windows alike, with the
    float arithmetic of the interpolation. *)
Theorem time_to_frame_monotone (t1 t2 ts te : Q) (n : Z) :
  1 < n <= 2 ^ 53 →
  ((ts < te)%Q → ∃ d, fsub (Fin te) (Fin ts) = Fin d ∧ ¬ (d == 0)%Q) →
  (t1 <= t2)%Q →
  ∃ k1 k2,
    time_to_frame (Some t1) (Some ts) (Some te) (Int n) = Ok (Some (Int k1))
    ∧ time_to_frame (Some t2) (Some ts) (Some te) (Int n) = Ok (Some (Int k2))
    ∧ 1 <= k1 ∧ k1 <= k2 ∧ k2 <= n.
Proof.
  intros Hn Hwidth Ht.
  destruct (Qlt_le_dec ts te) as [Hlt | Hle].
  2: { rewrite !time_to_frame_no_window by (lia || assumption).
       do 2 eexists. split; [reflexivity |]. split; [reflexivity |].
       destruct (Qltb t1 ts) eqn:E1; [destruct (Qltb t2 ts), (Qltb te t2); lia |].
       destruct (Qltb te t1) eqn:E2;
         [| destruct (Qltb t2 ts), (Qltb te t2); lia].
       apply Qltb_false in E1. apply Qltb_true in E2.
       rewrite (proj2 (Qltb_false t2 ts)) by (eapply Qle_trans; eassumption).
       rewrite (proj2 (Qltb_true te t2)) by (eapply Qlt_le_trans; eassumption).
       lia. }
  destruct (Hwidth Hlt) as (d & Hd & Hnz).
  assert (Hne : ¬ (te == ts)%Q).
  { intros Heq. rewrite Heq in Hlt. exact (Qlt_irrefl ts Hlt). }
  destruct (time_to_frame_finite_window t1 ts te d n Hlt Hn Hd Hnz)
    as (k1 & Hk1 & Hr1).
  destruct (time_to_frame_finite_window t2 ts te d n Hlt Hn Hd Hnz)
    as (k2 & Hk2 & Hr2).
  exists k1, k2. split; [assumption |]. split; [assumption |].
  split; [lia |]. split; [| lia].
  destruct (Qlt_le_dec t1 ts) as [Hb | Hlo1].
  { rewrite time_to_frame_before in Hk1 by (lia || assumption).
    injection Hk1 as <-. lia. }
  destruct (Qlt_le_dec te t2) as [Ha | Hhi2].
  { rewrite time_to_frame_after in Hk2; [| lia | | assumption].
    - injection Hk2 as <-. lia.
    - eapply Qle_trans; eassumption. }
  assert (Hlo2 : (ts <= t2)%Q) by (eapply Qle_trans; eassumption).
  assert (Hhi1 : (t1 <= te)%Q) by (eapply Qle_trans; eassumption).
  destruct (interpolation_steps t1 ts te d n Hlo1 Hhi1 Hne Hn Hd Hnz)
    as (a1 & r1 & p1 & s1 & Ha1 & Hra1 & Hp1 & Hs1 & Hd0 & Ha10 & Hr10 & Hp10
        & _ & _ & Hf1).
  destruct (interpolation_steps t2 ts te d n Hlo2 Hhi2 Hne Hn Hd Hnz)
    as (a2 & r2 & p2 & s2 & Ha2 & Hra2 & Hp2 & Hs2 & _ & Ha20 & Hr20 & Hp20
        & _ & _ & Hf2).
  rewrite Hf1 in Hk1. rewrite Hf2 in Hk2.
  injection Hk1 as <-. injection Hk2 as <-.
  assert (Ha : (a1 <= a2)%Q).
  { apply (rnd_le_Fin (t1 - ts) (t2 - ts)); try assumption.
    - apply (Qplus_le_l _ _ ts). ring_simplify. assumption.
    - apply (Qplus_le_l _ _ ts). ring_simplify. assumption. }
  assert (Hr : (r1 <= r2)%Q).
  { apply (rnd_le_Fin (a1 / d) (a2 / d)); try assumption.
    - apply Qle_shift_div_l; [assumption |]. rewrite Qmult_0_l. assumption.
    - apply Qmult_le_compat_r; [assumption |].
      apply Qlt_le_weak, Qinv_lt_0_compat. assumption. }
  assert (Hn0 : (0 <= inject_Z (n - 1))%Q).
  { change 0%Q with (inject_Z 0). rewrite <- Zle_Qle. lia. }
  assert (Hp : (p1 <= p2)%Q).
  { apply (rnd_le_Fin (r1 * inject_Z (n - 1)) (r2 * inject_Z (n - 1)));
      try assumption.
    - apply Qmult_le_0_compat; assumption.
    - apply Qmult_le_compat_r; assumption. }
  assert (Hs : (s1 <= s2)%Q).
  { apply (rnd_le_Fin (1 + p1) (1 + p2)); try assumption.
    - apply Qle_trans with (1 + 0)%Q; [discriminate |].
      apply Qplus_le_r. assumption.
    - apply Qplus_le_r. assumption. }
  pose proof (round_half_even_mono s1 s2 Hs). unfold clamp_frame. lia.
Qed.

Lemma time_to_frame_monotone_witness :
  1 < 10 <= 2 ^ 53
  ∧ ((0 < 1)%Q → ∃ d, fsub (Fin 1) (Fin 0) = Fin d ∧ ¬ (d == 0)%Q)
  ∧ ((1 # 3) <= (2 # 3))%Q
  ∧ ∃ k1 k2,
      time_to_frame (Some (1 # 3)%Q) (Some 0%Q) (Some 1%Q) (Int 10)
        = Ok (Some (Int k1))
      ∧ time_to_frame (Some (2 # 3)%Q) (Some 0%Q) (Some 1%Q) (Int 10)
        = Ok (Some (Int k2))
      ∧ 1 <= k1 ∧ k1 <= k2 ∧ k2 <= 10.
Proof.
  assert (Hwidth : (0 < 1)%Q → ∃ d, fsub (Fin 1) (Fin 0) = Fin d
                                    ∧ ¬ (d == 0)%Q).
  { intros _. exists 1%Q. split; [vm_compute; reflexivity | discriminate]. }
  split; [lia |]. split; [exact Hwidth |]. split; [discriminate |].
  apply (time_to_frame_monotone (1 # 3)%Q (2 # 3)%Q 0%Q 1%Q 10);
    [lia | exact Hwidth | discriminate].
Defined.

(** X2: for an event inside a window [time_start < time_end] of finite
    float width, and a frame count above one and at most [2^53],
    [frame_float] is a finite float between 1 and the frame count, and
    [time_to_frame] returns [round(frame_float)] itself: the clamp
    [max(1, min(frame, frames))] never changes it. *)
Theorem time_to_frame_unclamped (t ts te d : Q) (n : Z) :
  (ts <= t)%Q → (t <= te)%Q → (ts < te)%Q → 1 < n <= 2 ^ 53 →
  fsub (Fin te) (Fin ts) = Fin d → ¬ (d == 0)%Q →
  ∃ s,
    fadd (Fin 1)
      (fmul (fdiv (fsub (Fin t) (Fin ts)) (fsub (Fin te) (Fin ts)))
         (Fin (inject_Z (n - 1)))) = Fin s
    ∧ (1 <= s)%Q ∧ (s <= inject_Z n)%Q
    ∧ 1 <= round_half_even s <= n
    ∧ time_to_frame (Some t) (Some ts) (Some te) (Int n)
      = Ok (Some (Int (round_half_even s))).
Proof.
  intros Hlo Hhi Hlt Hn Hd Hnz.
  assert (Hne : ¬ (te == ts)%Q).
  { intros Heq. rewrite Heq in Hlt. exact (Qlt_irrefl ts Hlt). }
  destruct (interpolation_steps t ts te d n Hlo Hhi Hne Hn Hd Hnz)
    as (a & r & p & s & Ha & Hr & Hp & Hs & _ & _ & _ & _ & Hs1 & Hsn & Hf).
  assert (Hround : 1 <= round_half_even s <= n).
  { split; [apply round_half_even_ge | apply round_half_even_le]; assumption. }
  exists s. split.
  { rewrite Hd, fsub_Fin, Ha. unfold fdiv, fmul, fadd.
    rewrite Hr, Hp. exact Hs. }
  split; [assumption |]. split; [assumption |]. split; [assumption |].
  rewrite Hf. unfold clamp_frame. do 3 f_equal. lia.
Qed.

Lemma time_to_frame_unclamped_witness :
  (0 <= 2 # 3)%Q ∧ (2 # 3 <= 1)%Q ∧ (0 < 1)%Q ∧ 1 < 10 <= 2 ^ 53
  ∧ fsub (Fin 1) (Fin 0) = Fin 1 ∧ ¬ (1 == 0)%Q
  ∧ ∃ s,
      fadd (Fin 1)
        (fmul (fdiv (fsub (Fin (2 # 3)) (Fin 0)) (fsub (Fin 1) (Fin 0)))
           (Fin (inject_Z (10 - 1)))) = Fin s
      ∧ (1 <= s)%Q ∧ (s <= inject_Z 10)%Q
      ∧ 1 <= round_half_even s <= 10
      ∧ time_to_frame (Some (2 # 3)%Q) (Some 0%Q) (Some 1%Q) (Int 10)
        = Ok (Some (Int (round_half_even s))).
Proof.
  split; [discriminate |]. split; [discriminate |]. split; [reflexivity |].
  split; [lia |]. split; [vm_compute; reflexivity |].
  split; [discriminate |].
  apply (time_to_frame_unclamped (2 # 3)%Q 0%Q 1%Q 1%Q 10);
    [discriminate | discriminate | reflexivity | lia | vm_compute; reflexivity
    | discriminate].
Defined.

(** ** [get_max_value]: when it is undefined, symmetry, and the events *)

Lemma present_samples_nil (row : Row) (frames : list Z) :
  present_samples row frames = [] ↔ ∀ i, i ∈ frames → sample row i = None.
Proof.
  split.
  - intros Hnil i Hi. destruct (sample row i) as [v|] eqn:Hv; [| reflexivity].
    assert (Hin : v ∈ present_samples row frames)
      by (apply list_elem_of_omap; eauto).
    rewrite Hnil in Hin. inversion Hin.
  - intros Hall. induction frames as [|a frames IH]; [reflexivity |].
    unfold present_samples in *. simpl.
    rewrite Hall by (apply elem_of_cons; eauto).
    apply IH. intros i Hi. apply Hall, elem_of_cons. eauto.
Qed.

(** X4: on an integer frame count [get_max_value] returns [None] exactly
    when no frame from 1 to the frame count holds a sample, which covers a
    frame count below one, absent columns and missing cells alike. *)
Theorem get_max_value_undefined_iff (row : Row) (n : Z) :
  get_max_value row (Some (Int n)) = Ok None
  ↔ ∀ i, 1 <= i <= n → sample row i = None.
Proof.
  destruct (Z_lt_le_dec n 1) as [Hlt | Hge].
  - split; [intros _ i Hi; lia |]. intros _.
    unfold get_max_value, fnum_lt. rewrite (proj2 (Z.ltb_lt n 1) Hlt).
    reflexivity.
  - split.
    + intros Hnone i Hi.
      apply (proj1 (present_samples_nil row (seqZ 1 n))); [| apply elem_of_seqZ; lia].
      destruct (present_samples row (seqZ 1 n)) as [|x xs] eqn:Hp;
        [reflexivity |].
      destruct (get_max_value_first_extreme row n Hge) as (j & v & Hv & _).
      * rewrite Hp. discriminate.
      * congruence.
    + intros Hall. rewrite get_max_value_loop by assumption.
      rewrite (proj2 (present_samples_nil row (seqZ 1 n))); [reflexivity |].
      intros i Hi. apply elem_of_seqZ in Hi. apply Hall. lia.
Qed.

(** X5: the value given to an event never exceeds the extreme in magnitude:
    when [time_to_frame] returns a frame and [get_value_at_frame] finds a
    sample there, [get_max_value] is defined and at least as large in
    absolute value. *)
Theorem event_value_within_extreme (row : Row) (event_time time_start
    time_end : cell) (n : Z) (f : fnum) (v : Q) :
  time_to_frame event_time time_start time_end (Int n) = Ok (Some f) →
  get_value_at_frame row (Some f) = Ok (Some v) →
  ∃ m, get_max_value row (Some (Int n)) = Ok (Some m)
       ∧ (Qabs v <= Qabs m)%Q.
Proof.
  intros Hframe Hvalue.
  destruct (time_to_frame_frame _ _ _ _ _ Hframe) as (i & -> & Hi).
  rewrite get_value_at_frame_sample in Hvalue by lia.
  injection Hvalue as Hsample.
  destruct (get_max_value_first_extreme row n) as (j & m & Hm & _ & _ & Hle & _).
  - lia.
  - intros Hnil. apply (proj1 (present_samples_nil _ _)) with (i := i) in Hnil.
    + congruence.
    + apply elem_of_seqZ. lia.
  - exists m. split; [assumption |]. apply (Hle i v); [lia | assumption].
Qed.

Lemma event_value_within_extreme_witness :
  time_to_frame (Some (1 # 2)%Q) (Some 0%Q) (Some 1%Q) (Int 3)
    = Ok (Some (Int 2))
  ∧ get_value_at_frame
      (samples_row 3 [Some 2%Q; Some 3%Q; Some (-9)%Q]) (Some (Int 2))
    = Ok (Some 3%Q)
  ∧ ∃ m, get_max_value
           (samples_row 3 [Some 2%Q; Some 3%Q; Some (-9)%Q]) (Some (Int 3))
         = Ok (Some m)
         ∧ (Qabs 3 <= Qabs m)%Q.
Proof.
  split; [reflexivity |]. split; [reflexivity |].
  apply (event_value_within_extreme
           (samples_row 3 [Some 2%Q; Some 3%Q; Some (-9)%Q])
           (Some (1 # 2)%Q) (Some 0%Q) (Some 1%Q) 3 (Int 2) 3%Q);
    reflexivity.
Defined.

Lemma sample_negate_row (row : Row) (i : Z) :
  sample (negate_row row) i = Qopp <$> sample row i.
Proof.
  unfold sample, negate_row. simpl. rewrite lookup_fmap.
  destruct (row_values row !! i) as [[v|]|]; reflexivity.
Qed.

Lemma present_samples_negate_row (row : Row) (frames : list Z) :
  present_samples (negate_row row) frames
    = Qopp <$> present_samples row frames.
Proof.
  unfold present_samples.
  induction frames as [|i frames IH]; [reflexivity |].
  cbn [omap list_omap]. rewrite sample_negate_row, IH.
  destruct (sample row i); reflexivity.
Qed.

Lemma Qabs_Qopp_fmap (l : list Q) : Qabs <$> (Qopp <$> l) = Qabs <$> l.
Proof.
  rewrite <- list_fmap_compose. apply list_fmap_ext. intros _ [p q] _.
  unfold compose, Qabs, Qopp. simpl. rewrite Z.abs_opp. reflexivity.
Qed.

Lemma get_max_value_negate_row (row : Row) (n : Z) :
  get_max_value (negate_row row) (Some (Int n))
    = (v ← get_max_value row (Some (Int n)); Ok (Qopp <$> (v : option Q))).
Proof.
  destruct (Z_lt_le_dec n 1) as [Hlt | Hge].
  - unfold get_max_value, fnum_lt. rewrite (proj2 (Z.ltb_lt n 1) Hlt).
    reflexivity.
  - rewrite !get_max_value_loop by assumption.
    rewrite present_samples_negate_row.
    destruct (present_samples row (seqZ 1 n)) as [|x xs]; [reflexivity |].
    change (Qopp <$> x :: xs) with (Qopp x :: (Qopp <$> xs)).
    cbv beta iota zeta.
    change (Qopp x :: (Qopp <$> xs)) with (Qopp <$> (x :: xs)).
    rewrite Qabs_Qopp_fmap.
    destruct (py_max (Qabs <$> x :: xs)) as [m|e]; [| reflexivity]. step.
    destruct (py_index (Qabs <$> x :: xs) m) as [idx|e]; [| reflexivity]. step.
    unfold py_getitem. rewrite list_lookup_fmap.
    destruct ((x :: xs) !! idx); reflexivity.
Qed.

(** X6: negating every sample of a row negates the extreme: on any integer
    frame count [get_max_value] picks the sample at the same frame, so the
    result of the negated row is the opposite of the result of the row (and
    undefined when that one is). *)
Theorem get_max_value_negated (row : Row) (n : Z) :
  ∃ v, get_max_value row (Some (Int n)) = Ok v
       ∧ get_max_value (negate_row row) (Some (Int n)) = Ok (Qopp <$> v).
Proof.
  destruct (get_max_value_ok row n) as [v Hv]. exists v.
  split; [assumption |].
  rewrite get_max_value_negate_row, Hv. reflexivity.
Qed.

(** ** The output columns of a row *)

#[global] Instance at_name_inj : Inj (=) (=) at_name.
Proof.
  intros a b H.
  apply (f_equal (λ s, match s with
                       | String _ s' => s'
                       | EmptyString => EmptyString
                       end)) in H.
  exact H.
Qed.

Lemma for_loop_extract_dom (row : Row) (frames : option fnum)
    (evs : list (string * string)) (new_row m : new_row_t) :
  for_loop (extract_event row frames) new_row evs = Ok m →
  dom m = dom new_row ∪ list_to_set (at_name <$> evs.*1).
Proof.
  revert new_row. induction evs as [|ev evs IH]; intros new_row; simpl.
  - intros [= <-]. rewrite (right_id_L ∅ (∪)). reflexivity.
  - rewrite extract_event_value.
    destruct (event_value row frames ev) as [v|e]; [| discriminate]. step.
    intros Hrest. rewrite (IH _ Hrest), dom_insert_L.
    rewrite (comm_L (∪) {[at_name ev.1]} (dom new_row)).
    rewrite <- (assoc_L (∪)). reflexivity.
Qed.

Lemma for_loop_extract_other (row : Row) (frames : option fnum)
    (evs : list (string * string)) (new_row m : new_row_t) (k : string) :
  for_loop (extract_event row frames) new_row evs = Ok m →
  k ∉ at_name <$> evs.*1 →
  m !! k = new_row !! k.
Proof.
  revert new_row. induction evs as [|ev evs IH]; intros new_row; simpl.
  - intros [= <-] _. reflexivity.
  - rewrite extract_event_value.
    destruct (event_value row frames ev) as [v|e]; [| discriminate]. step.
    intros Hrest Hk. apply not_elem_of_cons in Hk as [Hne Hk].
    rewrite (IH _ Hrest Hk). apply lookup_insert_ne. congruence.
Qed.

Lemma for_loop_extract_lookup (row : Row) (frames : option fnum)
    (evs : list (string * string)) (new_row m : new_row_t)
    (ev : string * string) :
  for_loop (extract_event row frames) new_row evs = Ok m →
  NoDup evs.*1 → ev ∈ evs →
  ∃ v, event_value row frames ev = Ok v ∧ m !! at_name ev.1 = Some v.
Proof.
  revert new_row. induction evs as [|ev' evs IH]; intros new_row; simpl.
  - intros _ _ Hin. inversion Hin.
  - rewrite extract_event_value.
    destruct (event_value row frames ev') as [v|e] eqn:Hv;
      [| discriminate].
    step.
    intros Hrest Hnd Hin. apply NoDup_cons in Hnd as [Hfresh Hnd].
    apply elem_of_cons in Hin as [-> | Hin].
    + exists v. split; [assumption |].
      rewrite (for_loop_extract_other _ _ _ _ _ _ Hrest).
      * apply lookup_insert_eq.
      * intros Hk. apply list_elem_of_fmap_inj_2 in Hk; [contradiction |].
        apply at_name_inj.
    + apply (IH _ Hrest Hnd Hin).
Qed.

Lemma extract_event_samples_dom (row : Row)
    (available_events : list (string * string)) (out : new_row_t) :
  extract_event_samples row available_events = Ok out →
  dom out
    = ({["@max"%string]} ∪ list_to_set (at_name <$> available_events.*1)
       : gset string).
Proof.
  unfold extract_event_samples.
  destruct (convert_frames (row_frames row)) as [frames|e]; [| discriminate].
  step.
  destruct (for_loop (extract_event row frames) ∅ available_events)
    as [m|e] eqn:Hm; [| discriminate].
  step.
  destruct (if truthy frames then get_max_value row frames else Ok None)
    as [max_value|e]; [| discriminate].
  step. intros [= <-].
  rewrite dom_insert_L, (for_loop_extract_dom _ _ _ _ _ Hm), dom_empty_L.
  rewrite (left_id_L ∅ (∪)). reflexivity.
Qed.

(** X7: when the extraction of a row returns, the output holds exactly one
    column [@name] per available event and the column [@max], whatever was
    defined or undefined in the row. *)
Theorem extract_event_samples_columns (row : Row)
    (available_events : list (string * string)) (out : new_row_t) :
  extract_event_samples row available_events = Ok out →
  dom out
    = ({["@max"%string]} ∪ list_to_set (at_name <$> available_events.*1)
       : gset string).
Proof. apply extract_event_samples_dom. Qed.

Lemma extract_event_samples_columns_witness :
  extract_event_samples short_row event_time_cols
    = Ok (<["@max"%string := Some 30%Q]>
           (<["@max_ir"%string := None]>
             (<["@release"%string := None]>
               (<["@max_shoulder_rot"%string := None]>
                 (<["@footstrike"%string := None]> ∅)))))
  ∧ dom (<["@max"%string := Some 30%Q]>
           (<["@max_ir"%string := None]>
             (<["@release"%string := None]>
               (<["@max_shoulder_rot"%string := None]>
                 (<["@footstrike"%string := None]> (∅ : new_row_t))))))
    = ({["@max"%string]} ∪ list_to_set (at_name <$> event_time_cols.*1)
       : gset string).
Proof.
  split; [reflexivity |].
  apply (extract_event_samples_columns short_row event_time_cols).
  reflexivity.
Defined.

(** X8: when the extraction of a row returns, the frame count has been
    converted, the column [@max] holds the result of [get_max_value] on it
    (or [None] when the frame count is falsy), and, the event names being
    distinct and none of them [max], the column of each event holds the
    value computed for that event. *)
Theorem extract_event_samples_fields (row : Row)
    (available_events : list (string * string)) (out : new_row_t) :
  extract_event_samples row available_events = Ok out →
  ∃ frames,
    convert_frames (row_frames row) = Ok frames
    ∧ (∃ max_value,
         out !! "@max"%string = Some max_value
         ∧ (if truthy frames then get_max_value row frames else Ok None)
           = Ok max_value)
    ∧ (NoDup available_events.*1 → "max"%string ∉ available_events.*1 →
       ∀ ev, ev ∈ available_events →
         ∃ v, event_value row frames ev = Ok v
              ∧ out !! at_name ev.1 = Some v).
Proof.
  unfold extract_event_samples.
  destruct (convert_frames (row_frames row)) as [frames|e]; [| discriminate].
  step.
  destruct (for_loop (extract_event row frames) ∅ available_events)
    as [m|e] eqn:Hm; [| discriminate].
  step.
  destruct (if truthy frames then get_max_value row frames else Ok None)
    as [max_value|e] eqn:Hmv; [| discriminate].
  step. intros [= <-]. exists frames. split; [reflexivity |]. split.
  - exists max_value. split; [apply lookup_insert_eq | exact Hmv].
  - intros Hnd Hmax ev Hin.
    destruct (for_loop_extract_lookup _ _ _ _ _ _ Hm Hnd Hin)
      as (v & Hv & Hlook).
    exists v. split; [assumption |].
    rewrite lookup_insert_ne; [assumption |].
    change "@max"%string with (at_name "max"). intros Heq.
    apply at_name_inj in Heq. apply Hmax. rewrite Heq.
    apply list_elem_of_fmap_2. assumption.
Qed.

Lemma extract_event_samples_fields_witness :
  extract_event_samples (row_10_20_30 (1 # 2)%Q) footstrike
    = Ok (<["@max"%string := Some 30%Q]>
           (<["@footstrike"%string := Some 20%Q]> ∅))
  ∧ NoDup footstrike.*1 ∧ ("max"%string ∉ footstrike.*1)
  ∧ ∃ frames v,
      convert_frames (row_frames (row_10_20_30 (1 # 2)%Q)) = Ok frames
      ∧ event_value (row_10_20_30 (1 # 2)%Q) frames
          ("footstrike", "event_footstrike_time")%string = Ok v
      ∧ (<["@max"%string := Some 30%Q]>
          (<["@footstrike"%string := Some 20%Q]> ∅) : new_row_t)
          !! at_name "footstrike" = Some v.
Proof.
  assert (Hnd : NoDup footstrike.*1) by (apply NoDup_singleton).
  assert (Hmax : "max"%string ∉ footstrike.*1).
  { intros Hin. apply list_elem_of_singleton in Hin. discriminate. }
  assert (Hout : extract_event_samples (row_10_20_30 (1 # 2)%Q) footstrike
    = Ok (<["@max"%string := Some 30%Q]>
           (<["@footstrike"%string := Some 20%Q]> ∅)))
    by (vm_compute; reflexivity).
  split; [exact Hout |]. split; [exact Hnd |]. split; [exact Hmax |].
  destruct (extract_event_samples_fields (row_10_20_30 (1 # 2)%Q) footstrike
              _ Hout) as (frames & Hf & _ & Hfields).
  destruct (Hfields Hnd Hmax ("footstrike", "event_footstrike_time")%string)
    as (v & Hv & Hlook).
  - apply list_elem_of_singleton. reflexivity.
  - exists frames, v. split; [exact Hf |]. split; assumption.
Defined.

(** ** Rows with a single frame *)

Lemma get_max_value_single (row : Row) :
  get_max_value row (Some (Int 1)) = Ok (sample row 1).
Proof.
  rewrite get_max_value_loop by lia.
  change (seqZ 1 1) with [1]. unfold present_samples. cbn [omap list_omap].
  destruct (sample row 1) as [v|]; [| reflexivity].
  cbn [fmap list_fmap py_max foldl py_index]. step.
  rewrite (proj2 (Qeqb_true (Qabs v) (Qabs v)) (Qeq_refl _)). reflexivity.
Qed.

(** X15: a row that declares a single frame has no event value at all,
    since [time_to_frame] needs more than one frame, although its extreme
    is the sample of frame 1. *)
Theorem single_frame_row (row : Row)
    (available_events : list (string * string)) :
  convert_frames (row_frames row) = Ok (Some (Int 1)) →
  extract_event_samples row available_events
    = Ok (<["@max"%string := sample row 1]>
           (undefined_events ∅ available_events)).
Proof.
  intros Hf. rewrite (extract_event_samples_frames _ _ _ Hf).
  rewrite (for_loop_extract_undefined row available_events ∅ 1) by lia.
  step. cbn [truthy Z.eqb negb].
  rewrite get_max_value_single. reflexivity.
Qed.

Lemma single_frame_row_witness :
  convert_frames (row_frames (samples_row 1 [Some 7%Q])) = Ok (Some (Int 1))
  ∧ extract_event_samples (samples_row 1 [Some 7%Q]) footstrike
    = Ok (<["@max"%string := Some 7%Q]> (<["@footstrike"%string := None]> ∅)).
Proof.
  split; [reflexivity |].
  apply (single_frame_row (samples_row 1 [Some 7%Q]) footstrike).
  reflexivity.
Defined.

(** ** Frame counts that are not integers *)

Lemma extract_event_samples_nan (row : Row)
    (available_events : list (string * string)) :
  row_frames row = CellFloat FNaN →
  raises (extract_event_samples row available_events).
Proof.
  intros Hf. unfold extract_event_samples. rewrite Hf.
  change (convert_frames (CellFloat FNaN))
    with (Ok (Some NaN) : result (option fnum)).
  step.
  destruct (for_loop (extract_event row (Some NaN)) ∅ available_events)
    as [m|e].
  - step. exists TypeError. reflexivity.
  - exists e. reflexivity.
Qed.

Lemma extract_event_samples_infinite (row : Row)
    (available_events : list (string * string)) (negative : bool) :
  row_frames row = CellFloat (Inf negative) →
  extract_event_samples row available_events = Raise OverflowError.
Proof.
  intros Hf. unfold extract_event_samples. rewrite Hf. reflexivity.
Qed.

Lemma for_loop_extract_no_frames (row : Row)
    (available_events : list (string * string)) (new_row : new_row_t) :
  for_loop (extract_event row None) new_row available_events
    = Ok (undefined_events new_row available_events).
Proof.
  revert new_row.
  induction available_events as [|ev evs IH]; intros new_row; simpl;
    [reflexivity |].
  rewrite extract_event_undefined by eauto 10. step. apply IH.
Qed.

Lemma extract_event_samples_no_frames (row : Row)
    (available_events : list (string * string)) :
  convert_frames (row_frames row) = Ok None →
  extract_event_samples row available_events
    = Ok (<["@max"%string := None]> (undefined_events ∅ available_events)).
Proof.
  intros Hf. rewrite (extract_event_samples_frames _ _ _ Hf).
  rewrite for_loop_extract_no_frames. reflexivity.
Qed.

(** A row whose [frames] cell is NaN or infinite makes its extraction
    raise. *)
Lemma extract_event_samples_bad_frames (row : Row)
    (available_events : list (string * string)) :
  row_frames row = CellFloat FNaN ∨ (∃ b, row_frames row = CellFloat (Inf b)) →
  raises (extract_event_samples row available_events).
Proof.
  intros [Hf | [b Hf]].
  - apply extract_event_samples_nan. assumption.
  - exists OverflowError. apply (extract_event_samples_infinite _ _ b Hf).
Qed.

Lemma summarize_rows_raises (available_events : list (string * string))
    (summarized_rows : list new_row_t) (df : list Row) (row : Row) :
  raises (extract_event_samples row available_events) → row ∈ df →
  raises (summarize_rows available_events summarized_rows df).
Proof.
  intros [e0 Hraise] Hin. unfold summarize_rows. revert summarized_rows.
  induction df as [|r df IH]; intros acc; [inversion Hin |].
  simpl. unfold summarize_step at 2.
  destruct (extract_event_samples r available_events) as [new_row|e] eqn:Hr.
  - step. apply elem_of_cons in Hin as [<- | Hin]; [congruence |].
    apply IH. assumption.
  - step. exists e. reflexivity.
Qed.

(** X9: what lines 194-198 make of the [frames] cell decides what becomes
    of the row.  On a NaN cell (a NULL in a numeric column), which is left
    as it is, the extraction raises; on an infinite cell [int] raises
    [OverflowError], which the handler does not catch; a cell that is
    [None] or a text that is no integer leaves no frame count, and every
    field comes out undefined; a finite float is truncated toward zero;
    and the conversion raises on an infinite cell only.  A table holding a
    row on which the extraction raises makes the whole loop raise, so that
    nothing is summarized. *)
Theorem frames_cell_outcome (row : Row)
    (available_events : list (string * string)) :
  (row_frames row = CellFloat FNaN →
   raises (extract_event_samples row available_events))
  ∧ (∀ b, row_frames row = CellFloat (Inf b) →
       extract_event_samples row available_events = Raise OverflowError)
  ∧ (row_frames row = CellNone ∨ row_frames row = CellText None →
     extract_event_samples row available_events
       = Ok (<["@max"%string := None]>
              (undefined_events ∅ available_events)))
  ∧ (∀ q, row_frames row = CellFloat (Fin q) →
       convert_frames (row_frames row)
         = Ok (Some (Int (Z.quot (Qnum q) (Zpos (Qden q))))))
  ∧ (∀ e, convert_frames (row_frames row) = Raise e
          ↔ (∃ b, row_frames row = CellFloat (Inf b)) ∧ e = OverflowError)
  ∧ (raises (extract_event_samples row available_events) →
     ∀ (summarized_rows : list new_row_t) (df : list Row),
       row ∈ df →
       raises (summarize_rows available_events summarized_rows df)).
Proof.
  split; [apply extract_event_samples_nan |].
  split; [intros b; apply extract_event_samples_infinite |].
  split; [| split; [| split]].
  - intros Hf. apply extract_event_samples_no_frames.
    destruct Hf as [-> | ->]; reflexivity.
  - intros q ->. reflexivity.
  - intros e. apply convert_frames_raise.
  - intros Hraise acc df Hin.
    apply (summarize_rows_raises _ _ _ row); assumption.
Qed.

Lemma frames_cell_outcome_witness :
  raises (summarize_rows footstrike []
            [row_10_20_30 0; mkRow (Some 0%Q) (Some 1%Q) (CellFloat FNaN) ∅ ∅])
  ∧ extract_event_samples
      (mkRow (Some 0%Q) (Some 1%Q) (CellFloat (Inf false)) ∅ ∅) footstrike
    = Raise OverflowError
  ∧ convert_frames
      (row_frames (mkRow (Some 0%Q) (Some 1%Q) (CellFloat (Fin (7 # 2))) ∅ ∅))
    = Ok (Some (Int 3)).
Proof.
  split; [| split].
  - apply (frames_cell_outcome
             (mkRow (Some 0%Q) (Some 1%Q) (CellFloat FNaN) ∅ ∅) footstrike).
    + apply (frames_cell_outcome
               (mkRow (Some 0%Q) (Some 1%Q) (CellFloat FNaN) ∅ ∅) footstrike).
      reflexivity.
    + apply elem_of_cons. right. apply elem_of_cons. left. reflexivity.
  - apply (frames_cell_outcome
             (mkRow (Some 0%Q) (Some 1%Q) (CellFloat (Inf false)) ∅ ∅)
             footstrike) with (b := false).
    reflexivity.
  - apply (frames_cell_outcome
             (mkRow (Some 0%Q) (Some 1%Q) (CellFloat (Fin (7 # 2))) ∅ ∅)
             footstrike) with (q := (7 # 2)%Q).
    reflexivity.
Defined.

(** ** The outcome of the batch loop *)

(** The rows appended by the loop are the extractions of the rows read, one
    for one, whatever had been accumulated before. *)
Lemma summarize_rows_pointwise (available_events : list (string * string))
    (df : list Row) (summarized_rows outs : list new_row_t) :
  summarize_rows available_events summarized_rows df = Ok outs →
  ∃ news,
    outs = summarized_rows ++ news
    ∧ Forall2 (λ row new_row,
        extract_event_samples row available_events = Ok new_row) df news.
Proof.
  unfold summarize_rows. revert summarized_rows.
  induction df as [|row df IH]; intros acc; simpl.
  - intros [= <-]. exists []. rewrite app_nil_r. split; constructor.
  - unfold summarize_step at 2.
    destruct (extract_event_samples row available_events) as [new_row|e] eqn:E;
      [| discriminate].
    step. intros Hrest. destruct (IH _ Hrest) as (news & -> & Hall).
    exists (new_row :: news). rewrite <- app_assoc. split; [reflexivity |].
    constructor; assumption.
Qed.

Lemma summarize_rows_cons (available_events : list (string * string))
    (acc : list new_row_t) (row : Row) (df : list Row) :
  summarize_rows available_events acc (row :: df)
    = (new_row ← extract_event_samples row available_events;
       summarize_rows available_events (acc ++ [new_row]) df).
Proof.
  unfold summarize_rows. simpl. unfold summarize_step at 2.
  destruct (extract_event_samples row available_events); reflexivity.
Qed.

(** X10: the loop over the rows returns exactly when the extraction of
    every row returns, and then it has appended one output per row, in the
    order of the rows, to what was accumulated; otherwise it raises the
    exception of the first row whose extraction raises. *)
Theorem summarize_rows_outcome (available_events : list (string * string))
    (summarized_rows : list new_row_t) (df : list Row) :
  (∀ outs,
     summarize_rows available_events summarized_rows df = Ok outs
     ↔ ∃ news,
         outs = summarized_rows ++ news
         ∧ Forall2 (λ row new_row,
             extract_event_samples row available_events = Ok new_row)
             df news)
  ∧ (∀ e,
       summarize_rows available_events summarized_rows df = Raise e
       ↔ ∃ before row after,
           df = before ++ row :: after
           ∧ Forall (λ r, ∃ new_row,
               extract_event_samples r available_events = Ok new_row) before
           ∧ extract_event_samples row available_events = Raise e).
Proof.
  revert summarized_rows. induction df as [|row df IH]; intros acc.
  - split.
    + intros outs. split.
      * intros [= <-]. exists []. rewrite app_nil_r. split; constructor.
      * intros (news & -> & Hall). inversion Hall. rewrite app_nil_r.
        reflexivity.
    + intros e. split; [discriminate |].
      intros (before & r & after & Hsplit & _). destruct before; discriminate.
  - rewrite summarize_rows_cons.
    destruct (extract_event_samples row available_events) as [new_row|e0] eqn:Hrow.
    + step. destruct (IH (acc ++ [new_row])) as [IHok IHraise]. split.
      * intros outs. rewrite IHok. split.
        -- intros (news & -> & Hall). exists (new_row :: news).
           rewrite <- app_assoc. split; [reflexivity |].
           constructor; assumption.
        -- intros (news & -> & Hall).
           inversion Hall as [|? nr ? news' Hnr Hall']; subst.
           exists news'. rewrite <- app_assoc.
           replace nr with new_row by congruence.
           split; [reflexivity | assumption].
      * intros e. rewrite IHraise. split.
        -- intros (before & r & after & -> & Hall & Hr).
           exists (row :: before), r, after.
           split; [reflexivity |]. split; [| assumption].
           constructor; eauto.
        -- intros (before & r & after & Hsplit & Hall & Hr).
           destruct before as [|b before]; simpl in Hsplit.
           ++ injection Hsplit as <- <-. congruence.
           ++ injection Hsplit as <- ->.
              exists before, r, after. split; [reflexivity |].
              apply Forall_cons in Hall as [_ Hall]. split; assumption.
    + step. split.
      * intros outs. split; [discriminate |].
        intros (news & _ & Hall). inversion Hall; subst. congruence.
      * intros e. split.
        -- intros [= <-]. exists [], row, df.
           split; [reflexivity |]. split; [constructor | assumption].
        -- intros (before & r & after & Hsplit & Hall & Hr).
           destruct before as [|b before]; simpl in Hsplit.
           ++ injection Hsplit as <- <-. congruence.
           ++ injection Hsplit as <- ->.
              apply Forall_cons in Hall as [[nr Hnr] _]. congruence.
Qed.

(** ** The columns kept and the events available *)

Lemma foldl_add_metadata_elem (all_columns cols keep : list string)
    (c : string) :
  c ∈ foldl (add_metadata all_columns) keep cols
  ↔ c ∈ keep ∨ (c ∈ cols ∧ c ∈ all_columns).
Proof.
  revert keep. induction cols as [|col cols IH]; intros keep; simpl.
  - split; [auto |]. intros [H | [H _]]; [assumption | inversion H].
  - rewrite IH. unfold add_metadata.
    destruct (bool_decide_reflect (col ∈ all_columns)) as [Hall | Hall];
      destruct (bool_decide_reflect (col ∈ keep)) as [Hkeep | Hkeep]; simpl;
      rewrite ?elem_of_app, ?list_elem_of_singleton, elem_of_cons;
      split; intros H; destruct_or?; destruct_and?; subst; auto.
    all: try (destruct_or?; subst; auto; contradiction).
Qed.

Lemma foldl_add_metadata_prefix (all_columns cols keep : list string) :
  keep `prefix_of` foldl (add_metadata all_columns) keep cols.
Proof.
  revert keep. induction cols as [|col cols IH]; intros keep; simpl;
    [reflexivity |].
  etransitivity; [| apply IH]. unfold add_metadata.
  destruct (_ && _); [apply prefix_app_r |]; reflexivity.
Qed.

Lemma foldl_add_metadata_NoDup (all_columns cols keep : list string) :
  NoDup keep → NoDup (foldl (add_metadata all_columns) keep cols).
Proof.
  revert keep. induction cols as [|col cols IH]; intros keep Hnd; simpl;
    [assumption |].
  apply IH. unfold add_metadata.
  destruct (bool_decide (col ∈ all_columns)); simpl; [| assumption].
  destruct (bool_decide_reflect (col ∈ keep)) as [Hkeep | Hkeep]; simpl;
    [assumption |].
  apply NoDup_app. split; [assumption |]. split; [| apply NoDup_singleton].
  intros x Hx Hx'. apply list_elem_of_singleton in Hx'. subst. contradiction.
Qed.

(** X11: the summary stops for want of a [value_1] column exactly when no
    column has that name.  Otherwise the columns kept are those that stand
    before the first [value_1], in their order, followed by those of
    [time_start], [time_end] and [frames] that exist elsewhere in the
    table; [value_1] is not kept, nor is any other column after it, and
    distinct column names stay distinct. *)
Theorem keep_columns_spec (all_columns : list string) :
  (value_1_idx all_columns = None ↔ "value_1"%string ∉ all_columns)
  ∧ (∀ idx, value_1_idx all_columns = Some idx →
       all_columns !! idx = Some "value_1"%string
       ∧ take idx all_columns `prefix_of` keep_columns all_columns idx
       ∧ (∀ c, c ∈ keep_columns all_columns idx
               ↔ (∃ j, all_columns !! j = Some c ∧ (j < idx)%nat)
                 ∨ (c ∈ metadata_cols ∧ c ∈ all_columns))
       ∧ ("value_1"%string ∉ keep_columns all_columns idx)
       ∧ (NoDup all_columns → NoDup (keep_columns all_columns idx))).
Proof.
  unfold value_1_idx. split.
  - rewrite fmap_None, list_find_None, Forall_forall. split.
    + intros H Hin. exact (H _ Hin eq_refl).
    + intros H x Hx ->. contradiction.
  - intros idx Hidx. apply fmap_Some in Hidx as ([i x] & Hfind & ->).
    apply list_find_Some in Hfind as (Hlook & -> & Hfirst). simpl.
    assert (Hchar : ∀ c, c ∈ keep_columns all_columns i
              ↔ (∃ j, all_columns !! j = Some c ∧ (j < i)%nat)
                ∨ (c ∈ metadata_cols ∧ c ∈ all_columns)).
    { intros c. unfold keep_columns.
      rewrite foldl_add_metadata_elem, elem_of_take. reflexivity. }
    split; [assumption |]. split; [apply foldl_add_metadata_prefix |].
    split; [assumption |]. split.
    + rewrite Hchar. intros [(j & Hj & Hlt) | [Hmeta _]].
      * exact (Hfirst j _ Hj Hlt eq_refl).
      * unfold metadata_cols in Hmeta.
        repeat (apply elem_of_cons in Hmeta as [Hmeta | Hmeta];
                [discriminate |]).
        inversion Hmeta.
    + intros Hnd. apply foldl_add_metadata_NoDup.
      eapply sublist_NoDup; [eassumption | apply sublist_take].
Qed.

Lemma keep_columns_spec_witness :
  value_1_idx ["owner"; "variable"; "value_1"; "value_2"; "frames";
               "event_release_time"]%string = Some 2%nat
  ∧ keep_columns ["owner"; "variable"; "value_1"; "value_2"; "frames";
                  "event_release_time"]%string 2
    = ["owner"; "variable"; "frames"]%string
  ∧ ("value_1"%string ∉ keep_columns
       ["owner"; "variable"; "value_1"; "value_2"; "frames";
        "event_release_time"]%string 2).
Proof.
  split; [reflexivity |]. split; [reflexivity |].
  apply (keep_columns_spec
           ["owner"; "variable"; "value_1"; "value_2"; "frames";
            "event_release_time"]%string).
  reflexivity.
Defined.

Lemma foldl_append_filter {A} (P : A → Prop) `{∀ x, Decision (P x)}
    (l acc : list A) :
  foldl (λ acc x, if bool_decide (P x) then acc ++ [x] else acc) acc l
    = acc ++ filter P l.
Proof.
  revert acc. induction l as [|x l IH]; intros acc; simpl.
  - rewrite app_nil_r. reflexivity.
  - rewrite IH. rewrite filter_cons.
    destruct (bool_decide_reflect (P x)) as [HP | HP];
      destruct (decide (P x)); try contradiction.
    + rewrite <- app_assoc. reflexivity.
    + reflexivity.
Qed.

Lemma available_events_filter (columns : list string) :
  available_events_of columns
    = filter (λ ev, ev.2 ∈ columns) event_time_cols.
Proof.
  unfold available_events_of.
  rewrite (foldl_append_filter (λ ev : string * string, ev.2 ∈ columns)).
  reflexivity.
Qed.

Lemma event_time_cols_names :
  NoDup event_time_cols.*1 ∧ "max"%string ∉ event_time_cols.*1.
Proof.
  split.
  - refine (bool_decide_unpack _ _). vm_compute. exact I.
  - refine (bool_decide_unpack _ _). vm_compute. exact I.
Qed.

(** X12: the events available are the entries of [event_time_cols] whose
    timestamp column exists in the table, in the order of
    [event_time_cols]; there is none exactly when none of the four columns
    exists; and their names are distinct and none is [max], so that no
    output column of an event collides with another or with [@max]. *)
Theorem available_events_spec (columns : list string) :
  (∀ ev, ev ∈ available_events_of columns
         ↔ ev ∈ event_time_cols ∧ ev.2 ∈ columns)
  ∧ available_events_of columns `sublist_of` event_time_cols
  ∧ (available_events_of columns = []
     ↔ ∀ ev, ev ∈ event_time_cols → ev.2 ∉ columns)
  ∧ NoDup (available_events_of columns).*1
  ∧ ("max"%string ∉ (available_events_of columns).*1).
Proof.
  rewrite available_events_filter.
  assert (Hsub : filter (λ ev : string * string, ev.2 ∈ columns)
                   event_time_cols `sublist_of` event_time_cols)
    by apply sublist_filter.
  destruct event_time_cols_names as [Hnd Hmax].
  split; [| split; [| split; [| split]]].
  - intros ev. rewrite list_elem_of_filter. tauto.
  - assumption.
  - split.
    + intros Hnil ev Hev Hcol.
      assert (Hin : ev ∈ filter (λ ev : string * string, ev.2 ∈ columns)
                      event_time_cols)
        by (apply list_elem_of_filter; auto).
      rewrite Hnil in Hin. inversion Hin.
    + intros Hnone.
      destruct (filter _ event_time_cols) as [|ev l] eqn:Hf; [reflexivity |].
      assert (Hin : ev ∈ filter (λ ev : string * string, ev.2 ∈ columns)
                      event_time_cols)
        by (rewrite Hf; apply elem_of_cons; auto).
      apply list_elem_of_filter in Hin as [Hcol Hev].
      exfalso. exact (Hnone ev Hev Hcol).
  - eapply sublist_NoDup; [exact Hnd |]. apply fmap_sublist. assumption.
  - intros Hin. apply Hmax.
    eapply elem_of_sublist; [exact Hin |]. apply fmap_sublist. assumption.
Qed.

(** ** The table summarized *)

Lemma is_pitch_table_substring (table_name : string) :
  is_pitch_table table_name = true
  ↔ ∃ m, String.substring m 5 (lower table_name) = "pitch"%string.
Proof.
  unfold is_pitch_table.
  destruct (String.index 0 "pitch" (lower table_name)) as [m|] eqn:Hi.
  - split; [| reflexivity]. intros _. exists m.
    apply (String.index_correct1 0 m "pitch" (lower table_name)). assumption.
  - split; [discriminate |]. intros [m Hm]. exfalso.
    apply (String.index_correct3 0 m "pitch" (lower table_name));
      [assumption | discriminate | lia | assumption].
Qed.

(** X13: no table is chosen exactly when the database has none.  Otherwise
    the table chosen is one of the database: the first whose lower-cased
    name contains [pitch], and the very first table when no name does. *)
Theorem main_table_choice (tables : list string) :
  (main_table tables = None ↔ tables = [])
  ∧ (∀ main, main_table tables = Some main →
       main ∈ tables
       ∧ (((∃ m, String.substring m 5 (lower main) = "pitch"%string)
           ∧ ∃ i, tables !! i = Some main
                  ∧ ∀ j t, tables !! j = Some t → (j < i)%nat →
                      ¬ ∃ m, String.substring m 5 (lower t) = "pitch"%string)
          ∨ ((∀ t, t ∈ tables →
                ¬ ∃ m, String.substring m 5 (lower t) = "pitch"%string)
             ∧ tables !! 0%nat = Some main))).
Proof.
  unfold main_table. split.
  - destruct tables as [|first rest]; [split; reflexivity |].
    split; [| discriminate].
    destruct (list_find _ (first :: rest)) as [[i t]|]; discriminate.
  - intros main. destruct tables as [|first rest]; [discriminate |].
    destruct (list_find _ (first :: rest)) as [[i t]|] eqn:Hfind.
    + intros [= <-]. apply list_find_Some in Hfind as (Hlook & Hpitch & Hfirst).
      split; [apply list_elem_of_lookup; eauto |]. left. split.
      * apply is_pitch_table_substring. assumption.
      * exists i. split; [assumption |]. intros j t' Hj Hlt Hsub.
        apply (Hfirst j t' Hj Hlt). apply is_pitch_table_substring. assumption.
    + intros [= <-]. apply list_find_None in Hfind.
      split; [apply elem_of_cons; auto |]. right. split; [| reflexivity].
      intros t Ht Hsub. rewrite Forall_forall in Hfind.
      apply (Hfind t Ht). apply is_pitch_table_substring. assumption.
Qed.

Lemma main_table_choice_witness :
  main_table ["athletes"; "PitchData"; "pitches"]%string
    = Some "PitchData"%string
  ∧ ("PitchData"%string ∈ ["athletes"; "PitchData"; "pitches"]%string)
  ∧ main_table ["athletes"; "sessions"]%string = Some "athletes"%string.
Proof.
  split; [reflexivity |]. split; [| reflexivity].
  apply (main_table_choice ["athletes"; "PitchData"; "pitches"]%string).
  reflexivity.
Defined.

(** X14: when [summarize_database] succeeds, the input file exists, the
    table summarized is the one [main_table] chooses, it has a [value_1]
    column and at least one row, the events are the available ones and
    there is at least one, and the summary holds one output per row of the
    table, in order, each the extraction of its row and all with the same
    columns ([@max] and one per event); no row of the table has a NaN or
    infinite frame count.  Conversely a single row with a NaN or infinite
    frame count in the table chosen makes the run fail as a whole. *)
Theorem summarize_database_outcome (input_exists : bool)
    (tables : list string) (read_table : string → DataFrame) :
  (∀ s, summarize_database input_exists tables read_table = Some s →
     input_exists = true
     ∧ main_table tables = Some (sum_table s)
     ∧ "value_1"%string ∈ df_columns (read_table (sum_table s))
     ∧ sum_keep s ⊆ df_columns (read_table (sum_table s))
     ∧ sum_events s = available_events_of (df_columns (read_table (sum_table s)))
     ∧ sum_events s ≠ []
     ∧ df_rows (read_table (sum_table s)) ≠ []
     ∧ length (sum_rows s) = length (df_rows (read_table (sum_table s)))
     ∧ Forall2 (λ row out,
          extract_event_samples row (sum_events s) = Ok out
          ∧ dom out = ({["@max"%string]}
                        ∪ list_to_set (at_name <$> (sum_events s).*1)
                       : gset string))
         (df_rows (read_table (sum_table s))) (sum_rows s)
     ∧ Forall (λ row, row_frames row ≠ CellFloat FNaN
                      ∧ ∀ b, row_frames row ≠ CellFloat (Inf b))
         (df_rows (read_table (sum_table s))))
  ∧ (∀ main row,
       main_table tables = Some main →
       row ∈ df_rows (read_table main) →
       row_frames row = CellFloat FNaN
         ∨ (∃ b, row_frames row = CellFloat (Inf b)) →
       summarize_database input_exists tables read_table = None).
Proof.
  unfold summarize_database. split.
  - intros s. destruct input_exists; [| discriminate]. simpl.
    destruct (main_table tables) as [main|] eqn:Hmain; [| discriminate].
    destruct (df_rows (read_table main)) as [|row rows] eqn:Hrows;
      [discriminate |].
    destruct (df_columns (read_table main)) as [|col cols] eqn:Hcols;
      [discriminate |].
    destruct (value_1_idx (col :: cols)) as [idx|] eqn:Hidx; [| discriminate].
    destruct (available_events_of (col :: cols)) as [|ev evs] eqn:Hav;
      [discriminate |].
    destruct (summarize_rows (ev :: evs) [] (row :: rows)) as [outs|e] eqn:Hsum;
      [| discriminate].
    intros [= <-]. simpl. rewrite Hrows, Hcols.
    apply summarize_rows_pointwise in Hsum as (news & -> & Hall). simpl.
    split; [reflexivity |]. split; [reflexivity |]. split.
    { apply fmap_Some in Hidx as ([i x] & Hfind & _).
      apply list_find_Some in Hfind as (Hlook & -> & _).
      apply list_elem_of_lookup. eauto. }
    split.
    { intros c Hc. unfold keep_columns in Hc.
      apply foldl_add_metadata_elem in Hc as [Hc | [_ Hc]]; [| assumption].
      apply elem_of_take in Hc as (j & Hj & _).
      apply list_elem_of_lookup. eauto. }
    split; [symmetry; assumption |]. split; [discriminate |].
    split; [discriminate |]. split.
    { symmetry. apply (Forall2_length _ _ _ Hall). }
    split.
    { eapply Forall2_impl; [exact Hall |]. intros r out Hout. simpl in Hout.
      split; [exact Hout |].
      exact (extract_event_samples_dom r (ev :: evs) out Hout). }
    apply Forall_forall. intros r Hr.
    apply list_elem_of_lookup in Hr as [i Hi].
    destruct (Forall2_lookup_l _ _ _ _ _ Hall Hi) as (out & _ & Hout).
    assert (Hgood : ¬ (row_frames r = CellFloat FNaN
                       ∨ ∃ b, row_frames r = CellFloat (Inf b))).
    { intros Hbad.
      destruct (extract_event_samples_bad_frames r (ev :: evs) Hbad)
        as [e He].
      congruence. }
    split; [| intros b]; intros Hf; apply Hgood; eauto.
  - intros main row Hmain Hin Hnan. rewrite Hmain.
    destruct (negb input_exists); [reflexivity |].
    destruct (df_rows (read_table main)) as [|r rows] eqn:Hrows;
      [reflexivity |].
    destruct (df_columns (read_table main)) as [|col cols]; [reflexivity |].
    destruct (value_1_idx (col :: cols)); [| reflexivity].
    destruct (available_events_of (col :: cols)) as [|ev evs]; [reflexivity |].
    destruct (summarize_rows_raises (ev :: evs) [] (r :: rows) row
                (extract_event_samples_bad_frames row (ev :: evs) Hnan) Hin)
      as [e ->].
    reflexivity.
Qed.

Lemma summarize_database_outcome_witness :
  summarize_database true ["pitches"]%string
    (λ _, mkDataFrame ["owner"; "value_1"; "event_footstrike_time"]%string
            [row_10_20_30 0])
  = Some (mkSummary "pitches" ["owner"]%string footstrike
            [<["@max"%string := Some 30%Q]>
               (<["@footstrike"%string := Some 10%Q]> ∅)])
  ∧ length [<["@max"%string := Some 30%Q]>
              (<["@footstrike"%string := Some 10%Q]> (∅ : new_row_t))]
    = length [row_10_20_30 0]
  ∧ summarize_database true ["pitches"]%string
      (λ _, mkDataFrame ["owner"; "value_1"; "event_footstrike_time"]%string
              [row_10_20_30 0; mkRow (Some 0%Q) (Some 1%Q) (CellFloat FNaN) ∅ ∅])
    = None.
Proof.
  split; [reflexivity |]. split.
  - apply (proj1 (summarize_database_outcome true ["pitches"]%string
      (λ _, mkDataFrame ["owner"; "value_1"; "event_footstrike_time"]%string
              [row_10_20_30 0]))
      (mkSummary "pitches" ["owner"]%string footstrike
         [<["@max"%string := Some 30%Q]>
            (<["@footstrike"%string := Some 10%Q]> ∅)])).
    reflexivity.
  - apply (proj2 (summarize_database_outcome true ["pitches"]%string
      (λ _, mkDataFrame ["owner"; "value_1"; "event_footstrike_time"]%string
              [row_10_20_30 0; mkRow (Some 0%Q) (Some 1%Q) (CellFloat FNaN) ∅ ∅]))
      "pitches"%string (mkRow (Some 0%Q) (Some 1%Q) (CellFloat FNaN) ∅ ∅)).
    + reflexivity.
    + apply elem_of_cons. right. apply elem_of_cons. left. reflexivity.
    + left. reflexivity.
Defined.
